(** * Kaltura metadata XML utility: a shallow embedding of
      kaltura_metadata_xml_util.py and the properties of its document
      builder / editor.

    The Python code works on lxml element trees.  An element is modelled by
    its tag, its attributes, its text and its children; tails, comments and
    processing instructions are not tracked (no function of the module reads
    them).  Namespaced tags use lxml's Clark notation, [{uri}local].

    Domain of the model:
    - a Python [str] is a [string] whose characters are the code points
      below 256, and every text is text that lxml accepts (no control
      characters);
    - field names (the name attributes of the schema and the field_name
      arguments) are XML names without prefix: lxml accepts them as tags,
      the ElementPath expression [.//name] built by interpolation selects
      the descendants whose tag equals [name], and the predicate
      [[@name='x']] compares the attribute with [x];
    - the [value] argument of add_value_to_metadata is a [str], so that
      [str(value)] is [value];
    - the existing document reaches get_metadata_template_with_values
      already parsed;
    - logging is not modelled. *)

From Stdlib Require Import String Ascii List Bool Arith Lia.
Import ListNotations.
Local Open Scope string_scope.
Local Open Scope list_scope.

(** ** Element trees *)

Local Unset Elimination Schemes.

Inductive Element : Type :=
  mkElement {
    tag : string;
    attrib : list (string * string);
    text : option string;
    children : list Element
  }.

Local Set Elimination Schemes.

Definition set_text (e : Element) (t : option string) : Element :=
  mkElement (tag e) (attrib e) t (children e).

Definition set_children (e : Element) (cs : list Element) : Element :=
  mkElement (tag e) (attrib e) (text e) cs.

(** [ET.Element(name)] followed by [.text = t]. *)
Definition new_element (name : string) (t : option string) : Element :=
  mkElement name [] t [].

(** ** Python values *)

Definition opt_eqb (a b : option string) : bool :=
  match a, b with
  | Some x, Some y => String.eqb x y
  | None, None => true
  | _, _ => false
  end.

(** Formatting inside an f-string: [None] is rendered as the text None. *)
Definition fstr (o : option string) : string :=
  match o with
  | Some s => s
  | None => "None"
  end.

(** Truth value of an optional string: [None] and the empty string are
    false. *)
Definition truthy (o : option string) : bool :=
  match o with
  | None => false
  | Some EmptyString => false
  | Some (String _ _) => true
  end.

(** [ch.isspace()] for code points below 256. *)
Definition isspace (c : ascii) : bool :=
  let n := nat_of_ascii c in
  (((9 <=? n) && (n <=? 13)) || ((28 <=? n) && (n <=? 32))
   || (n =? 133) || (n =? 160))%nat.

Fixpoint lstrip (s : string) : string :=
  match s with
  | EmptyString => EmptyString
  | String c r => if isspace c then lstrip r else s
  end.

Fixpoint rstrip (s : string) : string :=
  match s with
  | EmptyString => EmptyString
  | String c r =>
      match rstrip r with
      | EmptyString => if isspace c then EmptyString else String c EmptyString
      | r' => String c r'
      end
  end.

(** [s.strip()] *)
Definition strip (s : string) : string := rstrip (lstrip s).

(** [text is None or not text.strip()] *)
Definition is_blank (t : option string) : bool :=
  match t with
  | None => true
  | Some s => negb (truthy (Some (strip s)))
  end.

(** ** Exceptions and results *)

Inductive ValueErrorMessage : Type :=
  | MetadataElementIsNone     (* raised at the top of add_value_to_metadata *)
  | ValueNotAllowed           (* the restriction check of add_value_to_metadata *)
  | NotAChild.                (* lxml: Element is not a child of this node *)

Inductive exn : Type :=
  | ValueError (m : ValueErrorMessage)
  | TypeError
  | UnboundLocalError.

Inductive result (A : Type) : Type :=
  | Ok (a : A)
  | Raise (e : exn).

Arguments Ok {A} a.
Arguments Raise {A} e.

(** ** lxml queries *)

(** [elem.get(key)] *)
Fixpoint assoc (key : string) (l : list (string * string)) : option string :=
  match l with
  | [] => None
  | (k, v) :: r => if String.eqb k key then Some v else assoc key r
  end.

Definition get (e : Element) (key : string) : option string :=
  assoc key (attrib e).

(** [elem.iter()]: the element and its descendants in document order. *)
Fixpoint iter (e : Element) : list Element :=
  e :: flat_map iter (children e).

(** [elem.iterdescendants()] *)
Definition iterdescendants (e : Element) : list Element :=
  flat_map iter (children e).

(** Descendants in document order, each paired with its parent. *)
Fixpoint iter_with_parent (parent e : Element) : list (Element * Element) :=
  (parent, e) :: flat_map (iter_with_parent e) (children e).

Definition descendants_with_parent (e : Element) : list (Element * Element) :=
  flat_map (iter_with_parent e) (children e).

Definition has_tag (name : string) (e : Element) : bool :=
  String.eqb (tag e) name.

(** [elem.findall(f".//{name}")] and [elem.find(f".//{name}")] *)
Definition findall (name : string) (e : Element) : list Element :=
  filter (has_tag name) (iterdescendants e).

Definition find (name : string) (e : Element) : option Element :=
  hd_error (findall name e).

(** [elem.findall(name)]: the children with that tag. *)
Definition findall_children (name : string) (e : Element) : list Element :=
  filter (has_tag name) (children e).

(** ** The XSD namespace *)

Definition XSD_NAMESPACE_URL : string := "http://www.w3.org/2001/XMLSchema".

Definition xsd (local : string) : string :=
  "{" ++ XSD_NAMESPACE_URL ++ "}" ++ local.

(** [xsd_root.findall(".//xsd:element", XSD_NAMESPACE)] *)
Definition xsd_elements (xsd_root : Element) : list Element :=
  findall (xsd "element") xsd_root.

Definition is_named (field_name : string) (e : Element) : bool :=
  has_tag (xsd "element") e && opt_eqb (get e "name") (Some field_name).

(** [xsd_root.find(f".//xsd:element[@name='{field_name}']", XSD_NAMESPACE)] *)
Definition find_xsd_element (field_name : string) (xsd_root : Element)
  : option Element :=
  hd_error (filter (is_named field_name) (iterdescendants xsd_root)).

(** ** MetadataUtils *)

(** One round of the loop of build_metadata_template.  The name attributes
    are XML names (see the domain above): a name that lxml refuses as a tag
    is not modelled. *)
Fixpoint build_loop (elems : list Element) (metadata_element : Element)
  : result Element :=
  match elems with
  | [] => Ok metadata_element
  | xsd_elem :: rest =>
      if negb (opt_eqb (get xsd_elem "name") (Some "metadata")) then
        match get xsd_elem "name" with
        | None => Raise TypeError     (* ET.SubElement(parent, None) *)
        | Some name =>
            build_loop rest
              (set_children metadata_element
                 (children metadata_element
                    ++ [new_element name (Some EmptyString)]))
        end
      else build_loop rest metadata_element
  end.

Definition build_metadata_template (xsd_root : Element) : result Element :=
  build_loop (xsd_elements xsd_root) (new_element "metadata" None).

(** The body of the loop of get_metadata_template_with_values for one
    element of the template: the element with the text copied from the
    existing document, or nothing when it is removed from the template.
    Every element of the snapshot [list(template_tree)] is handled on its
    own (its text is set, or that very element is removed), so the loop is a
    [flat_map] over the children. *)
Definition merge_elem (item_tree xsd_root : Element) (template_elem : Element)
  : list Element :=
  let field_name := tag template_elem in
  let item_text :=                 (* None when no such element exists *)
    match find field_name item_tree with
    | Some corresponding_item_elem => text corresponding_item_elem
    | None => None
    end in
  if truthy item_text then [set_text template_elem item_text]
  else
    let minOccurs :=
      match find_xsd_element field_name xsd_root with
      | Some xsd_elem => get xsd_elem "minOccurs"
      | None => None
      end in
    if opt_eqb minOccurs (Some "0") then [] else [template_elem].

(** get_metadata_template_with_values, on the parsed existing document
    [item_tree] (the result of [ET.fromstring(metadata_item.xml)]). *)
Definition get_metadata_template_with_values (item_tree xsd_root : Element)
  : result Element :=
  match build_metadata_template xsd_root with
  | Raise e => Raise e
  | Ok template_tree =>
      let merged :=
        set_children template_tree
          (flat_map (merge_elem item_tree xsd_root) (children template_tree)) in
      match children merged with
      | [] => build_metadata_template xsd_root
      | _ :: _ => Ok merged
      end
  end.

Definition is_field_multi_valued (field_name : string) (xsd_root : Element)
  : bool :=
  match find_xsd_element field_name xsd_root with
  | Some xsd_element =>
      negb (opt_eqb (get xsd_element "maxOccurs") None
            || opt_eqb (get xsd_element "maxOccurs") (Some "1"))
  | None => false
  end.

(** [.//xsd:element[@name='...']/xsd:simpleType] *)
Definition own_simpleTypes (field_name : string) (xsd_root : Element)
  : list Element :=
  flat_map (findall_children (xsd "simpleType"))
    (filter (is_named field_name) (iterdescendants xsd_root)).

(** [.//xsd:element[@name='...']/../xsd:simpleType] *)
Definition sibling_simpleTypes (field_name : string) (xsd_root : Element)
  : list Element :=
  flat_map (fun pe => findall_children (xsd "simpleType") (fst pe))
    (filter (fun pe => is_named field_name (snd pe))
       (descendants_with_parent xsd_root)).

Definition get_restriction_values (field_name : string) (xsd_root : Element)
  : list (option string) :=
  let field_type_element :=
    match hd_error (own_simpleTypes field_name xsd_root) with
    | Some e => Some e
    | None => hd_error (sibling_simpleTypes field_name xsd_root)
    end in
  match field_type_element with
  | Some type_elem =>
      match hd_error (findall_children (xsd "restriction") type_elem) with
      | Some restriction =>
          map (fun enum => get enum "value")
            (findall_children (xsd "enumeration") restriction)
      | None => []
      end
  | None => []
  end.

(** [xsd_root.find('.//xsd:complexType/xsd:sequence', XSD_NAMESPACE)] *)
Definition first_sequence (xsd_root : Element) : option Element :=
  hd_error
    (flat_map (findall_children (xsd "sequence"))
       (findall (xsd "complexType") xsd_root)).

Fixpoint position_loop (field_name : string) (elems : list Element)
  (index : nat) : option nat :=
  match elems with
  | [] => None
  | element :: rest =>
      if opt_eqb (get element "name") (Some field_name) then Some index
      else position_loop field_name rest (S index)
  end.

(** find_position_for_new_element: the sequence position of a field. *)
Definition find_position_for_new_element (field_name : string)
  (xsd_root : Element) : option nat :=
  match first_sequence xsd_root with
  | Some sequence =>
      position_loop field_name (findall_children (xsd "element") sequence) 0
  | None => None
  end.

(** The loop of remove_empty_elements over the children of [parent].
    [parent.findall] lists, for each child in turn, the child itself when it
    has the tag and then the descendants of the child that have it.  A blank
    child is removed; [parent.remove] of a blank element that lies deeper
    raises ValueError (it is not a child of [parent]), and what was removed
    before stays removed. *)
Fixpoint remove_loop (field_name : string) (cs : list Element)
  : list Element * result unit :=
  match cs with
  | [] => ([], Ok tt)
  | c :: rest =>
      let kept :=
        if has_tag field_name c && is_blank (text c) then [] else [c] in
      if existsb (fun d => is_blank (text d)) (findall field_name c) then
        (kept ++ rest, Raise (ValueError NotAChild))
      else
        let (rest', r) := remove_loop field_name rest in
        (kept ++ rest', r)
  end.

Definition remove_empty_elements (parent : Element) (field_name : string)
  : Element * result unit :=
  let (cs, r) := remove_loop field_name (children parent) in
  (set_children parent cs, r).

Fixpoint insert_loop (metadata_element : Element) (field_name : string)
  (elems : list Element) (position : nat) : nat :=
  match elems with
  | [] => position
  | xsd_elem :: rest =>
      if opt_eqb (get xsd_elem "name") (Some field_name) then position
      else
        match find (fstr (get xsd_elem "name")) metadata_element with
        | Some _ =>
            insert_loop metadata_element field_name rest
              (position
               + length (findall (fstr (get xsd_elem "name")) metadata_element))
        | None => insert_loop metadata_element field_name rest position
        end
  end.

(** find_insert_position.  Without a sequence the final [return position]
    reads a local variable that was never assigned. *)
Definition find_insert_position (metadata_element : Element)
  (field_name : string) (xsd_root : Element) : result nat :=
  match first_sequence xsd_root with
  | Some sequence =>
      Ok (insert_loop metadata_element field_name
            (findall_children (xsd "element") sequence) 0)
  | None => Raise UnboundLocalError
  end.

(** [parent.insert(index, elem)] for a non-negative index: past the end it
    appends. *)
Definition insert (parent : Element) (index : nat) (elem : Element) : Element :=
  set_children parent
    (firstn index (children parent) ++ elem :: skipn index (children parent)).

Section FirstMatch.
Variable A : Type.
Variable upd : A -> option A.

(** Rewrites the first element of the list that [upd] accepts. *)
Fixpoint update_first_of (l : list A) : option (list A) :=
  match l with
  | [] => None
  | a :: r =>
      match upd a with
      | Some a' => Some (a' :: r)
      | None =>
          match update_first_of r with
          | Some r' => Some (a :: r')
          | None => None
          end
      end
  end.
End FirstMatch.

Arguments update_first_of {A} upd l.

(** Sets the text of the first element, in document order, of the subtree
    of [e] that has the tag [name]; [None] when there is none. *)
Fixpoint set_text_in (name : string) (t : option string) (e : Element)
  : option Element :=
  if has_tag name e then Some (set_text e t)
  else
    match update_first_of (set_text_in name t) (children e) with
    | Some cs => Some (set_children e cs)
    | None => None
    end.

(** [root.find(f".//{name}").text = t], when the element exists: the
    assignment lands in the tree, on the first descendant with that tag. *)
Definition set_text_of_first (name : string) (t : option string)
  (root : Element) : Element :=
  match update_first_of (set_text_in name t) (children root) with
  | Some cs => set_children root cs
  | None => root
  end.

(** add_value_to_metadata.  The first component is the metadata element
    after the call, also when the call raises. *)
Definition add_value_to_metadata (metadata_element : option Element)
  (field_name : string) (value : string) (xsd_root : Element)
  : option Element * result unit :=
  match metadata_element with
  | None => (None, Raise (ValueError MetadataElementIsNone))
  | Some doc =>
      let multi_valued := is_field_multi_valued field_name xsd_root in
      let restriction_values := get_restriction_values field_name xsd_root in
      if negb (Nat.eqb (length restriction_values) 0)
         && negb (existsb (opt_eqb (Some value)) restriction_values)
      then (Some doc, Raise (ValueError ValueNotAllowed))
      else
        let existing_elements := findall field_name doc in
        if multi_valued then
          let inserted :=
            if negb (existsb (fun elem => opt_eqb (text elem) (Some value))
                       existing_elements)
            then
              match find_insert_position doc field_name xsd_root with
              | Ok insert_position =>
                  Ok (insert doc insert_position
                        (new_element field_name (Some value)))
              | Raise e => Raise e
              end
            else Ok doc in
          match inserted with
          | Raise e => (Some doc, Raise e)
          | Ok doc1 =>
              let (doc2, r) := remove_empty_elements doc1 field_name in
              (Some doc2, r)
          end
        else
          match existing_elements with
          | _ :: _ =>
              (Some (set_text_of_first field_name (Some value) doc), Ok tt)
          | [] =>
              match find_insert_position doc field_name xsd_root with
              | Ok insert_position =>
                  (Some (insert doc insert_position
                           (new_element field_name (Some value))), Ok tt)
              | Raise e => (Some doc, Raise e)
              end
          end
  end.

(** ** KalturaMetadataManager.populate_default_values *)

Definition populate_step (xsd_root : Element) (skip_optional : bool)
  (metadata_xml : Element) (xsd_elem : Element) : Element :=
  let name := get xsd_elem "name" in
  let minOccurs := get xsd_elem "minOccurs" in
  let is_optional := opt_eqb minOccurs (Some "0") in
  if opt_eqb name (Some "metadata") then metadata_xml
  else
    match find (fstr name) metadata_xml with
    | None => metadata_xml
    | Some metadata_element =>
        let restriction_values := get_restriction_values (fstr name) xsd_root in
        if negb (Nat.eqb (length restriction_values) 0)
           && negb (is_field_multi_valued (fstr name) xsd_root)
        then
          let first_value := hd None restriction_values in
          if negb (truthy (text metadata_element))
             || is_blank (text metadata_element)
          then set_text_of_first (fstr name) first_value metadata_xml
          else metadata_xml
        else if is_optional && skip_optional then
          set_text_of_first (fstr name) (Some EmptyString) metadata_xml
        else metadata_xml
    end.

Definition populate_default_values (metadata_xml xsd_root : Element)
  (skip_optional : bool) : Element :=
  fold_left (populate_step xsd_root skip_optional) (xsd_elements xsd_root)
    metadata_xml.

(** ** Serialisation and parsing *)

Definition newline : string := String (ascii_of_nat 10) EmptyString.

Fixpoint indent (level : nat) : string :=
  match level with
  | O => EmptyString
  | S n => "  " ++ indent n
  end.

(** The tree read back from the pretty-printed text of a tree without tails
    (as the functions above build them).  An element whose text is the
    empty string is written with an opening and a closing tag and nothing
    between them, and is read back with no text; an element that has
    children and no text node gets its children indented, which lands in
    its text; inside an element that has a text node nothing is indented. *)
Fixpoint reparse (format : bool) (level : nat) (e : Element) : Element :=
  let format' :=
    format && match text e with None => true | Some _ => false end in
  let text' :=
    match text e with
    | Some s => if truthy (Some s) then Some s else None
    | None =>
        match children e with
        | _ :: _ =>
            if format' then Some (newline ++ indent (S level))%string
            else None
        | [] => None
        end
    end in
  mkElement (tag e) (attrib e) text'
    (map (reparse format' (S level)) (children e)).

(** [ET.fromstring(MetadataUtils.pretty_print_element(element))] *)
Definition fromstring_pretty_print (element : Element) : Element :=
  reparse true 0 element.

(** ** Sample schemas and documents *)

Module Sample.

Definition xs (local : string) (a : list (string * string))
  (cs : list Element) : Element :=
  mkElement (xsd local) a None cs.

Definition enumeration (v : string) : Element :=
  xs "enumeration" [("value", v)] [].

Definition restricted (vs : list string) : Element :=
  xs "simpleType" []
    [xs "restriction" [("base", "listType")] (map enumeration vs)].

Definition schema_of (fields : list Element) : Element :=
  xs "schema" []
    [xs "element" [("name", "metadata")]
       [xs "complexType" [] [xs "sequence" [] fields]]].

Definition Email : Element :=
  xs "element"
    [("name", "Email"); ("minOccurs", "0"); ("maxOccurs", "unbounded");
     ("type", "textType")] [].

Definition Format : Element :=
  xs "element"
    [("name", "Format"); ("minOccurs", "1"); ("maxOccurs", "1")]
    [restricted ["Go-Pro camera"; "Phone"]].

Definition Categories : Element :=
  xs "element"
    [("name", "Categories"); ("minOccurs", "0"); ("maxOccurs", "unbounded");
     ("type", "textType")] [].

(** Scenario A of the specification. *)
Definition schemaA : Element := schema_of [Email; Format].

(** A schema without any sequence group. *)
Definition schema_no_sequence : Element :=
  xs "schema" [] [Email; Format].

Definition field (name value : string) : Element :=
  new_element name (Some value).

Definition metadata (fields : list Element) : Element :=
  mkElement "metadata" [] None fields.

End Sample.

(** * Notions used in the statements *)

(** Membership of the tag of an element in a list of names. *)
Definition tag_in (names : list string) (e : Element) : bool :=
  existsb (String.eqb (tag e)) names.

(** The lookup names of the fields of the sequence that come before the
    first declaration of [field_name]. *)
Fixpoint preceding (field_name : string) (elems : list Element) : list string :=
  match elems with
  | [] => []
  | e :: rest =>
      if opt_eqb (get e "name") (Some field_name) then []
      else fstr (get e "name") :: preceding field_name rest
  end.

(** [sequence.findall('xsd:element', XSD_NAMESPACE)]: the field declarations
    of a sequence. *)
Definition sequence_fields (sequence : Element) : list Element :=
  findall_children (xsd "element") sequence.

(** No blank element with the tag lies below the element. *)
Definition no_deep_blank (field_name : string) (c : Element) : bool :=
  negb (existsb (fun d => is_blank (text d)) (findall field_name c)).

(** The child is not a blank instance of the field. *)
Definition survives (field_name : string) (c : Element) : bool :=
  negb (has_tag field_name c && is_blank (text c)).

(** A field instance of a fresh template. *)
Definition empty_field (name : string) : Element :=
  new_element name (Some EmptyString).

(** The names under which build_metadata_template creates instances. *)
Definition declared_names (elems : list Element) : list (option string) :=
  filter (fun n => negb (opt_eqb n (Some "metadata")))
    (map (fun e => get e "name") elems).

(** The text of the first element of the existing document that has the
    name; None also when there is no such element. *)
Definition item_text (item_tree : Element) (name : string) : option string :=
  match find name item_tree with
  | Some corresponding_item_elem => text corresponding_item_elem
  | None => None
  end.

(** The minOccurs attribute of the first declaration of the name. *)
Definition declared_minOccurs (xsd_root : Element) (name : string)
  : option string :=
  match find_xsd_element name xsd_root with
  | Some xsd_elem => get xsd_elem "minOccurs"
  | None => None
  end.

(** The first declaration of the tag of the element has minOccurs 0. *)
Definition optional (xsd_root : Element) (c : Element) : bool :=
  opt_eqb (declared_minOccurs xsd_root (tag c)) (Some "0").

(** The template element is removed by the merge: the existing document
    has no element of its name, or the first one has the text None or the
    empty string (a text of white space only does not count), and the first
    declaration of the name has minOccurs 0. *)
Definition dropped (item_tree xsd_root : Element) (c : Element) : bool :=
  negb (truthy (item_text item_tree (tag c))) && optional xsd_root c.

(** The texts of the elements of a list that have the tag. *)
Definition texts_in (name : string) (l : list Element) : list (option string) :=
  map text (filter (has_tag name) l).

(** The texts of the instances of a field, in document order. *)
Definition texts (name : string) (doc : Element) : list (option string) :=
  map text (findall name doc).

(** What the assignment of [t] through [set_text_in m] does to the texts
    of the subtree of an element, seen name by name. *)
Definition assigns (m : string) (t : option string) (e : Element) : Prop :=
  (forall e',
      set_text_in m t e = Some e' ->
      tag e' = tag e
      /\ (exists x r, texts_in m (iter e) = x :: r
                      /\ texts_in m (iter e') = t :: r)
      /\ (forall n, n <> m -> texts_in n (iter e') = texts_in n (iter e)))
  /\ (set_text_in m t e = None -> filter (has_tag m) (iter e) = []).

(** [elem.text == str(value)] *)
Definition holds (value : string) (e : Element) : bool :=
  opt_eqb (text e) (Some value).

(** The instances of the field, among the elements of the subtrees, whose
    text is the value. *)
Definition holders_in (field_name value : string) (cs : list Element)
  : list Element :=
  filter (holds value) (filter (has_tag field_name) (flat_map iter cs)).

(** The instances of the field in the document whose text is the value. *)
Definition holders (field_name value : string) (doc : Element) : list Element :=
  filter (holds value) (findall field_name doc).

(** The names of a list that come before the first occurrence of a name. *)
Fixpoint before (field_name : string) (names : list string) : list string :=
  match names with
  | [] => []
  | n :: rest =>
      if String.eqb n field_name then [] else n :: before field_name rest
  end.

(** A list of tags is laid out along a list of names when it is a run of
    the first name, then a run of the second, and so on, followed by tags
    that are not among [all], the field names of the sequence. *)
Fixpoint layout (all names : list string) (tags : list string) : Prop :=
  match names with
  | [] => Forall (fun t => ~ In t all) tags
  | n :: ns => exists k rest, tags = repeat n k ++ rest /\ layout all ns rest
  end.

(** The index of the first occurrence of a name, counted from [k]. *)
Fixpoint index_from (k : nat) (field_name : string) (names : list string)
  : option nat :=
  match names with
  | [] => None
  | n :: rest =>
      if String.eqb n field_name then Some k
      else index_from (S k) field_name rest
  end.

(** An element without children. *)
Definition leaf (c : Element) : Prop := children c = [].

(** The field instances are the children of the root and have no children
    of their own. *)
Definition flat (doc : Element) : Prop := Forall leaf (children doc).

(** The document without the children that are blank instances of the
    field. *)
Definition prune (field_name : string) (doc : Element) : Element :=
  set_children doc (filter (survives field_name) (children doc)).

(** The declarations of the schema, the wrapper named metadata apart, are
    the element children of its first sequence, and their names are
    distinct. *)
Definition sequence_schema (xsd_root : Element) (names : list string) : Prop :=
  exists sequence,
    first_sequence xsd_root = Some sequence
    /\ map (fun e => get e "name") (sequence_fields sequence) = map Some names
    /\ declared_names (xsd_elements xsd_root) = map Some names
    /\ NoDup names.

(** The invariant of the documents: flat, and laid out along the names of
    the sequence. *)
Definition well_laid (names : list string) (doc : Element) : Prop :=
  flat doc /\ layout names names (map tag (children doc)).

(** The documents that the operations produce for a schema: a template, a
    merge, and what add_value_to_metadata (whether it returns or raises)
    and populate_default_values leave of such a document. *)
Inductive produced (xsd_root : Element) : Element -> Prop :=
  | produced_template template :
      build_metadata_template xsd_root = Ok template ->
      produced xsd_root template
  | produced_merge item_tree merged :
      get_metadata_template_with_values item_tree xsd_root = Ok merged ->
      produced xsd_root merged
  | produced_add_value doc field_name value doc' r :
      produced xsd_root doc ->
      add_value_to_metadata (Some doc) field_name value xsd_root
      = (Some doc', r) ->
      produced xsd_root doc'
  | produced_defaults doc skip_optional :
      produced xsd_root doc ->
      produced xsd_root (populate_default_values doc xsd_root skip_optional).

(** The text is neither None nor blank once stripped. *)
Definition nonblank_text (t : option string) : bool := negb (is_blank t).

(** The field instances are in the order of the sequence: an instance is
    never followed by an instance of a field with a smaller position. *)
Definition in_sequence_order (xsd_root : Element) (cs : list Element) : Prop :=
  ForallOrdPairs
    (fun c d => forall p q,
         find_position_for_new_element (tag c) xsd_root = Some p ->
         find_position_for_new_element (tag d) xsd_root = Some q ->
         p <= q) cs.

(** The instances of a field form one block. *)
Definition contiguous (name : string) (cs : list Element) : Prop :=
  exists l1 l2 l3,
    cs = l1 ++ l2 ++ l3
    /\ Forall (fun c => tag c = name) l2
    /\ Forall (fun c => tag c <> name) l1
    /\ Forall (fun c => tag c <> name) l3.

(** A schema that declares a field outside its sequence: Owner is declared
    at the top level, before the wrapper. *)
Definition schema_with_outside_field : Element :=
  Sample.xs "schema" []
    [Sample.xs "element" [("name", "Owner")] [];
     Sample.xs "element" [("name", "metadata")]
       [Sample.xs "complexType" []
          [Sample.xs "sequence" [] [Sample.Format; Sample.Email]]]].

(** * The rest of the module *)

(** ** KalturaMetadataManager: the metadata of an entry *)

(** A metadata object as the API lists it; [xml] is its document, already
    parsed. *)
Record KalturaMetadata : Type :=
  mkKalturaMetadata {
    metadata_id : nat;
    xml : Element
  }.

(** check_metadata_exists, on the objects that the list call of the API
    returns for the entry and the profile. *)
Definition check_metadata_exists (objects : list KalturaMetadata)
  : bool * option KalturaMetadata :=
  (Nat.ltb 0 (length objects), hd_error objects).

(** create_or_get_metadata, on the same list of objects. *)
Definition create_or_get_metadata (objects : list KalturaMetadata)
  (xsd_root : Element) : result Element :=
  let (metadata_exists, metadata_item) := check_metadata_exists objects in
  match metadata_exists, metadata_item with
  | true, Some item => get_metadata_template_with_values (xml item) xsd_root
  | _, _ =>
      match build_metadata_template xsd_root with
      | Ok metadata_xml => Ok (populate_default_values metadata_xml xsd_root true)
      | Raise e => Raise e
      end
  end.

(** The next call of a try block: it runs when the calls before it
    returned, and is skipped once one of them has raised. *)
Definition then_add_value (state : option Element * result unit)
  (field_name value : string) (xsd_root : Element)
  : option Element * result unit :=
  match state with
  | (metadata_xml, Ok _) =>
      add_value_to_metadata metadata_xml field_name value xsd_root
  | (metadata_xml, Raise e) => (metadata_xml, Raise e)
  end.

(** The five updates in the first try block of main.  The result is the
    metadata element after the block and how the block ended; main catches
    a ValueError and goes on to send the element, any other exception
    leaves main. *)
Definition main_updates (metadata_xml xsd_root : Element)
  : option Element * result unit :=
  then_add_value
    (then_add_value
       (then_add_value
          (then_add_value
             (add_value_to_metadata (Some metadata_xml)
                "Email" "someone@test.com" xsd_root)
             "Email" "someone@example.com" xsd_root)
          "Format" "Go-Pro camera" xsd_root)
       "Categories" "Testimonials" xsd_root)
    "Categories" "Nature party" xsd_root.

(** ** Notions used in the further statements *)

(** The text that populate_default_values gives to the first blank
    instance of a field with restrictions: the first of them. *)
Definition first_restriction_value (xsd_root : Element) (name : string)
  : option string :=
  hd None (get_restriction_values name xsd_root).

(** The field has restrictions and is not multi-valued. *)
Definition takes_default (xsd_root : Element) (name : string) : bool :=
  negb (Nat.eqb (length (get_restriction_values name xsd_root)) 0)
  && negb (is_field_multi_valued name xsd_root).

(** The text of a field in the document of a new entry. *)
Definition default_text (xsd_root : Element) (name : string) : option string :=
  if takes_default xsd_root name then first_restriction_value xsd_root name
  else Some EmptyString.

(** The text of an instance after populate_default_values, for a field
    that takes a default. *)
Definition defaulted (xsd_root : Element) (name : string) (t : option string)
  : option string :=
  if is_blank t then first_restriction_value xsd_root name else t.

(** The declarations of the schema under a lookup name. *)
Definition declarations_of (name : string) (xsd_root : Element) : list Element :=
  filter (fun e => String.eqb (fstr (get e "name")) name) (xsd_elements xsd_root).

(** The only declaration of the name in the schema is [e], a child of
    [parent]. *)
Definition sole_declaration (name : string) (xsd_root parent e : Element)
  : Prop :=
  filter (fun pe => is_named name (snd pe)) (descendants_with_parent xsd_root)
  = [(parent, e)].

(** The enumeration values of the first restriction of a type element. *)
Definition enumeration_values (type_elem : Element) : list (option string) :=
  match hd_error (findall_children (xsd "restriction") type_elem) with
  | Some restriction =>
      map (fun enum => get enum "value")
        (findall_children (xsd "enumeration") restriction)
  | None => []
  end.

(** A schema with named types: the fields Colour and Size are declared at
    the top level, each with a type attribute, beside the two types. *)
Definition schema_named_types : Element :=
  Sample.xs "schema" []
    [Sample.xs "element" [("name", "Colour"); ("type", "colourType")] [];
     Sample.xs "element" [("name", "Size"); ("type", "sizeType")] [];
     Sample.xs "simpleType" [("name", "colourType")]
       [Sample.xs "restriction" [("base", "listType")]
          [Sample.enumeration "red"; Sample.enumeration "blue"]];
     Sample.xs "simpleType" [("name", "sizeType")]
       [Sample.xs "restriction" [("base", "listType")]
          [Sample.enumeration "small"; Sample.enumeration "large"]]].

(** A second assignment through [set_text_in m] to an element that has
    received one lands where the first one did. *)
Definition reassigns (m : string) (e : Element) : Prop :=
  forall t1 t2,
    (set_text_in m t1 e = None -> set_text_in m t2 e = None)
    /\ (forall e1, set_text_in m t1 e = Some e1 ->
                   set_text_in m t2 e1 = set_text_in m t2 e).

(** What populate_default_values does to the texts of a field that takes a
    default: the text of the first instance gets the default when blank. *)
Definition default_first (xsd_root : Element) (name : string)
  (l : list (option string)) : list (option string) :=
  match l with
  | [] => []
  | t :: rest => defaulted xsd_root name t :: rest
  end.

(** The declaration is looked up under the name. *)
Definition declares (name : string) (e : Element) : bool :=
  String.eqb (fstr (get e "name")) name.

(** A finished document: for the names that [keep] selects, in the given
    order, one instance with the text that [value] gives. *)
Definition document_of (keep : string -> bool) (value : string -> string)
  (names : list string) : Element :=
  mkElement "metadata" [] None
    (map (fun n => new_element n (Some (value n))) (filter keep names)).

(** The texts of a field after its first instance, when there is one, has
    been given the empty string. *)
Definition blank_first (l : list (option string)) : list (option string) :=
  match l with
  | [] => []
  | _ :: rest => Some EmptyString :: rest
  end.

(** The declaration is looked up under the name and has minOccurs 0. *)
Definition optional_declaration (name : string) (e : Element) : bool :=
  declares name e && opt_eqb (get e "minOccurs") (Some "0").

(** populate_default_values blanks the first instance of a multi-valued
    field of that name: optional fields are skipped, the name is not the
    one of the wrapper, and a declaration of the name has minOccurs 0. *)
Definition blanks_multi_valued (xsd_root : Element) (skip_optional : bool)
  (name : string) : bool :=
  skip_optional && negb (String.eqb name "metadata")
  && existsb (optional_declaration name) (xsd_elements xsd_root).

(** * Properties *)

(** Induction over an element and, simultaneously, over all its children. *)
Lemma Element_ind' (P : Element -> Prop) :
  (forall t a x cs, Forall P cs -> P (mkElement t a x cs)) ->
  forall e, P e.
Proof.
  intros step.
  fix IH 1.
  intros [t a x cs]. apply step.
  induction cs as [|c cs IHcs]; constructor.
  - apply IH.
  - exact IHcs.
Qed.

Lemma opt_eqb_spec a b : reflect (a = b) (opt_eqb a b).
Proof.
  destruct a as [x|], b as [y|]; simpl; try (constructor; congruence).
  destruct (String.eqb_spec x y); constructor; congruence.
Qed.

(** ** Auxiliary facts on the Python values and on lists *)

Lemma existsb_opt_eqb (a : option string) (l : list (option string)) :
  existsb (opt_eqb a) l = true <-> In a l.
Proof.
  rewrite existsb_exists. split.
  - intros (x & Hin & Heq). destruct (opt_eqb_spec a x); congruence.
  - intros Hin. exists a. split; [exact Hin|].
    destruct (opt_eqb_spec a a); congruence.
Qed.

Lemma length_eqb_nil (A : Type) (l : list A) :
  Nat.eqb (length l) 0 = true <-> l = [].
Proof.
  destruct l; simpl; split; congruence.
Qed.

Lemma tag_in_spec names e : tag_in names e = true <-> In (tag e) names.
Proof.
  unfold tag_in. rewrite existsb_exists. split.
  - intros (x & Hin & Heq). apply String.eqb_eq in Heq. congruence.
  - intros Hin. exists (tag e). split; [exact Hin | apply String.eqb_refl].
Qed.

Lemma count_by_name (l : list Element) (names : list string) :
  NoDup names ->
  list_sum (map (fun n => length (filter (has_tag n) l)) names)
  = length (filter (tag_in names) l).
Proof.
  induction 1 as [|n ns Hn Hnd IH]; simpl.
  - induction l; simpl; auto.
  - rewrite IH. clear IH Hnd.
    induction l as [|d l IHl]; [reflexivity|].
    cbn [filter].
    change (tag_in (n :: ns) d) with (has_tag n d || tag_in ns d).
    destruct (has_tag n d) eqn:E; destruct (tag_in ns d) eqn:T;
      cbn [orb length]; try lia.
    apply tag_in_spec in T. apply String.eqb_eq in E. congruence.
Qed.

(** ** Restriction enforcement *)

(** C1.  When the restriction list that the schema gives for the field is
    not empty and the value is not one of its members, add_value_to_metadata
    raises the ValueError of the restriction check (the InvalidValueError of
    the specification) and the document after the call is the document
    before it. *)
Theorem add_value_rejects_unlisted_value
  (doc : Element) (field_name value : string) (xsd_root : Element) :
  get_restriction_values field_name xsd_root <> [] ->
  ~ In (Some value) (get_restriction_values field_name xsd_root) ->
  add_value_to_metadata (Some doc) field_name value xsd_root
  = (Some doc, Raise (ValueError ValueNotAllowed)).
Proof.
  intros Hne Hnot. unfold add_value_to_metadata.
  destruct (Nat.eqb (length (get_restriction_values field_name xsd_root)) 0)
    eqn:Hlen.
  - apply length_eqb_nil in Hlen. contradiction.
  - destruct (existsb (opt_eqb (Some value))
                (get_restriction_values field_name xsd_root)) eqn:Hex.
    + apply existsb_opt_eqb in Hex. contradiction.
    + reflexivity.
Qed.

Lemma add_value_rejects_unlisted_value_witness :
  add_value_to_metadata
    (Some (Sample.metadata [Sample.field "Email" "a@test.com";
                            Sample.field "Format" "Phone"]))
    "Format" "Drone" Sample.schemaA
  = (Some (Sample.metadata [Sample.field "Email" "a@test.com";
                            Sample.field "Format" "Phone"]),
     Raise (ValueError ValueNotAllowed)).
Proof.
  apply add_value_rejects_unlisted_value.
  - vm_compute. discriminate.
  - vm_compute. intros [H|[H|[]]]; discriminate.
Defined.

(** ** Insert position *)

Lemma insert_loop_sum doc field_name elems position :
  insert_loop doc field_name elems position
  = position
    + list_sum (map (fun n => length (findall n doc))
                  (preceding field_name elems)).
Proof.
  revert position.
  induction elems as [|e rest IH]; intros position; simpl.
  - lia.
  - destruct (opt_eqb (get e "name") (Some field_name)); simpl; [lia|].
    unfold find.
    destruct (findall (fstr (get e "name")) doc) as [|x xs] eqn:F; simpl.
    + rewrite IH. lia.
    + rewrite IH. simpl. lia.
Qed.

(** C2.  For a field declared in the first sequence of the schema, the
    insert index is the sum, over the fields that precede it in the
    sequence, of the number of instances of each of them in the document;
    when those preceding fields have distinct names this is the number of
    instances of the document that belong to a preceding field. *)
Theorem find_insert_position_counts_preceding
  (doc : Element) (field_name : string) (xsd_root sequence : Element) :
  first_sequence xsd_root = Some sequence ->
  In (Some field_name)
     (map (fun e => get e "name") (sequence_fields sequence)) ->
  let before := preceding field_name (sequence_fields sequence) in
  find_insert_position doc field_name xsd_root
  = Ok (list_sum (map (fun n => length (findall n doc)) before))
  /\ (NoDup before ->
      find_insert_position doc field_name xsd_root
      = Ok (length (filter (tag_in before) (iterdescendants doc)))).
Proof.
  intros Hseq _ before.
  assert (E : find_insert_position doc field_name xsd_root
              = Ok (list_sum (map (fun n => length (findall n doc)) before))).
  { unfold find_insert_position. rewrite Hseq.
    rewrite insert_loop_sum. reflexivity. }
  split; [exact E|].
  intros Hnd. rewrite E. f_equal.
  unfold findall. apply count_by_name. exact Hnd.
Qed.

Lemma find_insert_position_counts_preceding_witness :
  find_insert_position
    (Sample.metadata [Sample.field "Email" "a@test.com";
                      Sample.field "Email" "b@test.com";
                      Sample.field "Format" "Phone"])
    "Format" Sample.schemaA
  = Ok 2.
Proof.
  refine (proj2 (@find_insert_position_counts_preceding
                   (Sample.metadata [Sample.field "Email" "a@test.com";
                                     Sample.field "Email" "b@test.com";
                                     Sample.field "Format" "Phone"])
                   "Format" Sample.schemaA
                   (Sample.xs "sequence" [] [Sample.Email; Sample.Format])
                   _ _) _).
  - reflexivity.
  - simpl. right. left. reflexivity.
  - vm_compute. constructor; [intros [] | constructor].
Defined.

(** ** Pruning of empty elements *)

Lemma remove_loop_ok field_name cs cs' :
  remove_loop field_name cs = (cs', Ok tt) ->
  cs' = filter (survives field_name) cs
  /\ Forall (fun c => no_deep_blank field_name c = true) cs.
Proof.
  revert cs'. induction cs as [|c rest IH]; intros cs' H; simpl in H.
  - inversion H. split; [reflexivity | constructor].
  - destruct (existsb (fun d => is_blank (text d)) (findall field_name c))
      eqn:Deep; [discriminate|].
    destruct (remove_loop field_name rest) as [rest' r] eqn:R.
    inversion H; subst. destruct (IH rest' eq_refl) as [IH1 IH2].
    split.
    + simpl. unfold survives at 1.
      destruct (has_tag field_name c && is_blank (text c)); simpl;
        rewrite IH1; reflexivity.
    + constructor; [|exact IH2]. unfold no_deep_blank. rewrite Deep.
      reflexivity.
Qed.

Lemma remove_loop_total field_name cs :
  Forall (fun c => no_deep_blank field_name c = true) cs ->
  remove_loop field_name cs = (filter (survives field_name) cs, Ok tt).
Proof.
  induction 1 as [|c rest Hc Hrest IH]; simpl; [reflexivity|].
  unfold no_deep_blank in Hc. apply negb_true_iff in Hc. rewrite Hc.
  rewrite IH. unfold survives at 2.
  destruct (has_tag field_name c && is_blank (text c)); reflexivity.
Qed.

Lemma filter_iter_cons field_name c :
  filter (has_tag field_name) (iter c)
  = (if has_tag field_name c then [c] else []) ++ findall field_name c.
Proof.
  destruct c as [t a x cs]. unfold findall, iterdescendants. simpl.
  destruct (has_tag field_name (mkElement t a x cs)); reflexivity.
Qed.

Lemma findall_set_children field_name parent cs :
  findall field_name (set_children parent cs)
  = flat_map (fun c => filter (has_tag field_name) (iter c)) cs.
Proof.
  unfold findall, iterdescendants. simpl.
  induction cs as [|c cs IH]; simpl; [reflexivity|].
  rewrite filter_app, IH. reflexivity.
Qed.

Lemma findall_children_list field_name parent :
  findall field_name parent
  = flat_map (fun c => filter (has_tag field_name) (iter c)) (children parent).
Proof.
  unfold findall, iterdescendants.
  induction (children parent) as [|c cs IH]; simpl; [reflexivity|].
  rewrite filter_app, IH. reflexivity.
Qed.

Lemma remove_empty_elements_ok parent field_name parent' :
  remove_empty_elements parent field_name = (parent', Ok tt) ->
  parent' = set_children parent (filter (survives field_name) (children parent))
  /\ Forall (fun inst => is_blank (text inst) = false)
       (findall field_name parent').
Proof.
  unfold remove_empty_elements.
  destruct (remove_loop field_name (children parent)) as [cs r] eqn:R.
  intros H. inversion H; subst. clear H.
  apply remove_loop_ok in R. destruct R as [-> Deep].
  split; [reflexivity|].
  rewrite findall_set_children.
  induction Deep as [|c rest Hc Hrest IH]; simpl; [constructor|].
  destruct (survives field_name c) eqn:S; [|exact IH].
  simpl. apply Forall_app. split; [|exact IH].
  rewrite filter_iter_cons. apply Forall_app. split.
  - destruct (has_tag field_name c) eqn:T; [|constructor].
    constructor; [|constructor].
    unfold survives in S. rewrite T in S. simpl in S.
    apply negb_true_iff in S. exact S.
  - unfold no_deep_blank in Hc. apply negb_true_iff in Hc.
    apply Forall_forall. intros d Hd.
    destruct (is_blank (text d)) eqn:B; [|reflexivity].
    assert (existsb (fun d => is_blank (text d)) (findall field_name c) = true)
      by (apply existsb_exists; exists d; auto).
    congruence.
Qed.



(** ** Insertion without a sequence group *)

Lemma restriction_check_passes field_name value xsd_root :
  get_restriction_values field_name xsd_root = []
  \/ In (Some value) (get_restriction_values field_name xsd_root) ->
  negb (Nat.eqb (length (get_restriction_values field_name xsd_root)) 0)
  && negb (existsb (opt_eqb (Some value))
             (get_restriction_values field_name xsd_root)) = false.
Proof.
  intros [E|Hin].
  - rewrite E. reflexivity.
  - apply existsb_opt_eqb in Hin. rewrite Hin. apply andb_false_r.
Qed.

Lemma findall_nil_children field_name doc :
  findall field_name doc = [] ->
  Forall (fun c => has_tag field_name c = false /\ findall field_name c = [])
    (children doc).
Proof.
  rewrite findall_children_list.
  induction (children doc) as [|c cs IH]; simpl; intros H; [constructor|].
  apply app_eq_nil in H. destruct H as [Hc Hcs].
  constructor; [|apply IH; exact Hcs].
  rewrite filter_iter_cons in Hc.
  destruct (has_tag field_name c); [discriminate|]. auto.
Qed.

Lemma insert_new_then_prune doc field_name value position :
  findall field_name doc = [] ->
  exists doc',
    remove_empty_elements
      (insert doc position (new_element field_name (Some value))) field_name
    = (doc', Ok tt).
Proof.
  intros Hnone. apply findall_nil_children in Hnone.
  unfold remove_empty_elements, insert. simpl.
  rewrite remove_loop_total; [eexists; reflexivity|].
  assert (Hall : Forall (fun c => no_deep_blank field_name c = true)
                   (children doc)).
  { eapply Forall_impl; [|exact Hnone].
    intros c [_ E]. unfold no_deep_blank. rewrite E. reflexivity. }
  rewrite <- (firstn_skipn position (children doc)) in Hall.
  apply Forall_app in Hall. destruct Hall as [H1 H2].
  apply Forall_app. split; [exact H1|].
  constructor; [reflexivity | exact H2].
Qed.

(** C10.  When the schema has no sequence group below a complexType and the
    document has no instance of the field, a call of add_value_to_metadata
    that passes the restriction check raises UnboundLocalError (not one of
    the errors of the specification) out of find_insert_position and leaves
    the document as it was; when the schema has such a group the same call
    succeeds. *)
Theorem add_value_new_instance_needs_sequence
  (doc : Element) (field_name value : string) (xsd_root : Element) :
  findall field_name doc = [] ->
  get_restriction_values field_name xsd_root = []
  \/ In (Some value) (get_restriction_values field_name xsd_root) ->
  (first_sequence xsd_root = None ->
   find_insert_position doc field_name xsd_root = Raise UnboundLocalError
   /\ add_value_to_metadata (Some doc) field_name value xsd_root
      = (Some doc, Raise UnboundLocalError))
  /\ (first_sequence xsd_root <> None ->
      exists doc',
        add_value_to_metadata (Some doc) field_name value xsd_root
        = (Some doc', Ok tt)).
Proof.
  intros Hnone Hpass.
  pose proof (restriction_check_passes field_name value xsd_root Hpass) as Hc.
  split.
  - intros Hseq. unfold add_value_to_metadata, find_insert_position.
    rewrite Hc, Hnone, Hseq. simpl.
    split; [reflexivity|].
    destruct (is_field_multi_valued field_name xsd_root); reflexivity.
  - intros Hseq. unfold add_value_to_metadata, find_insert_position.
    rewrite Hc, Hnone.
    destruct (first_sequence xsd_root) as [sequence|]; [|congruence].
    simpl.
    destruct (is_field_multi_valued field_name xsd_root).
    + destruct (insert_new_then_prune doc field_name value
                  (insert_loop doc field_name
                     (findall_children (xsd "element") sequence) 0) Hnone)
        as [doc' E].
      rewrite E. exists doc'. reflexivity.
    + eexists. reflexivity.
Qed.

Lemma add_value_new_instance_needs_sequence_witness :
  add_value_to_metadata
    (Some (Sample.metadata [Sample.field "Format" "Phone"]))
    "Email" "a@test.com" Sample.schema_no_sequence
  = (Some (Sample.metadata [Sample.field "Format" "Phone"]),
     Raise UnboundLocalError).
Proof.
  refine (proj2 (proj1 (@add_value_new_instance_needs_sequence
                   (Sample.metadata [Sample.field "Format" "Phone"])
                   "Email" "a@test.com" Sample.schema_no_sequence _ _) _)).
  - reflexivity.
  - left. reflexivity.
  - reflexivity.
Defined.

(** ** The template *)

Lemma build_loop_ok elems m t :
  build_loop elems m = Ok t ->
  exists names,
    declared_names elems = map Some names
    /\ t = set_children m (children m ++ map empty_field names).
Proof.
  revert m. induction elems as [|e rest IH]; intros m H; simpl in H.
  - inversion H; subst. exists []. split; [reflexivity|].
    simpl. rewrite app_nil_r. destruct t; reflexivity.
  - unfold declared_names. simpl.
    destruct (opt_eqb (get e "name") (Some "metadata")) eqn:E; simpl in *.
    + apply IH in H. exact H.
    + destruct (get e "name") as [n|]; [|discriminate].
      apply IH in H. destruct H as (names & Hn & Ht).
      exists (n :: names). split.
      * simpl. f_equal. exact Hn.
      * rewrite Ht. unfold set_children. simpl.
        rewrite <- app_assoc. reflexivity.
Qed.

Lemma build_loop_total elems m names :
  declared_names elems = map Some names ->
  build_loop elems m = Ok (set_children m (children m ++ map empty_field names)).
Proof.
  revert m names. induction elems as [|e rest IH]; intros m names H.
  - destruct names; [|discriminate]. simpl. rewrite app_nil_r.
    destruct m; reflexivity.
  - unfold declared_names in H. simpl in *.
    destruct (opt_eqb (get e "name") (Some "metadata")) eqn:E; simpl in *.
    + apply IH. exact H.
    + destruct names as [|n names]; [discriminate|].
      simpl in H. injection H as Hn Hrest. rewrite Hn.
      rewrite (IH _ names Hrest). unfold set_children. simpl.
      rewrite <- app_assoc. reflexivity.
Qed.

Lemma build_metadata_template_ok xsd_root template :
  build_metadata_template xsd_root = Ok template ->
  exists names,
    declared_names (xsd_elements xsd_root) = map Some names
    /\ template = mkElement "metadata" [] None (map empty_field names).
Proof.
  intros H. apply build_loop_ok in H. exact H.
Qed.

(** ** Merging an existing document *)

Lemma merge_elem_eq item_tree xsd_root c :
  merge_elem item_tree xsd_root c
  = if truthy (item_text item_tree (tag c))
    then [set_text c (item_text item_tree (tag c))]
    else if optional xsd_root c then [] else [c].
Proof. reflexivity. Qed.

Lemma merge_elem_nil item_tree xsd_root c :
  merge_elem item_tree xsd_root c = [] <-> dropped item_tree xsd_root c = true.
Proof.
  rewrite merge_elem_eq. unfold dropped.
  destruct (truthy (item_text item_tree (tag c)));
    destruct (optional xsd_root c); simpl; split; congruence.
Qed.

Lemma merge_elem_tag item_tree xsd_root c c' :
  In c' (merge_elem item_tree xsd_root c) -> tag c' = tag c.
Proof.
  rewrite merge_elem_eq.
  destruct (truthy (item_text item_tree (tag c)));
    [|destruct (optional xsd_root c)]; simpl; intros H;
    repeat (destruct H as [H|H]; try subst c'); try reflexivity; contradiction.
Qed.

Lemma flat_map_merge_nil item_tree xsd_root cs :
  flat_map (merge_elem item_tree xsd_root) cs = []
  <-> forallb (dropped item_tree xsd_root) cs = true.
Proof.
  induction cs as [|c cs IH]; simpl; [tauto|].
  rewrite andb_true_iff, <- IH, <- merge_elem_nil. split.
  - intros H. apply app_eq_nil in H. exact H.
  - intros [-> ->]. reflexivity.
Qed.

Lemma merge_result item_tree xsd_root template :
  build_metadata_template xsd_root = Ok template ->
  get_metadata_template_with_values item_tree xsd_root
  = Ok (match flat_map (merge_elem item_tree xsd_root) (children template) with
        | [] => template
        | kept => set_children template kept
        end).
Proof.
  intros Hb. unfold get_metadata_template_with_values. rewrite Hb. simpl.
  destruct (flat_map (merge_elem item_tree xsd_root) (children template));
    reflexivity.
Qed.

(** C6, as the code has it.  In the merge, a template field whose element in
    the existing document is absent or has an empty text (None or the empty
    string) and whose minOccurs is 0 is removed: no instance of that name is
    left in the result; when this removes every field of the template the
    result is the fresh template, in which every field is present with
    empty text.  A field whose element has any other text, a text made of
    white space included, is not removed: it is in the result with that
    text. *)
Theorem merge_drops_unset_optional_fields
  (item_tree xsd_root template : Element) :
  build_metadata_template xsd_root = Ok template ->
  exists merged,
    get_metadata_template_with_values item_tree xsd_root = Ok merged
    /\ (forallb (dropped item_tree xsd_root) (children template) = false ->
        forall c, In c (children template) ->
                  dropped item_tree xsd_root c = true ->
                  ~ In (tag c) (map tag (children merged)))
    /\ (forallb (dropped item_tree xsd_root) (children template) = true ->
        merged = template
        /\ Forall (fun c => text c = Some EmptyString) (children merged)
        /\ map (fun c => Some (tag c)) (children merged)
           = declared_names (xsd_elements xsd_root))
    /\ (forall c, In c (children template) ->
                  truthy (item_text item_tree (tag c)) = true ->
                  In (set_text c (item_text item_tree (tag c)))
                     (children merged)).
Proof.
  intros Hb. eexists. split; [apply merge_result; exact Hb|].
  split; [|split].
  - intros Hsome c Hc Hdrop Hin.
    destruct (flat_map (merge_elem item_tree xsd_root) (children template))
      as [|k kept] eqn:F.
    { apply flat_map_merge_nil in F. congruence. }
    change (children (set_children template (k :: kept))) with (k :: kept) in Hin.
    rewrite <- F in Hin. apply in_map_iff in Hin.
    destruct Hin as (c' & Htag & Hc').
    apply in_flat_map in Hc'. destruct Hc' as (c0 & Hc0 & Hin0).
    pose proof (merge_elem_tag _ _ _ _ Hin0) as E.
    assert (D : dropped item_tree xsd_root c0 = true).
    { unfold dropped, optional in *. rewrite <- E, Htag. exact Hdrop. }
    apply merge_elem_nil in D. rewrite D in Hin0. destruct Hin0.
  - intros Hall. apply flat_map_merge_nil in Hall. rewrite Hall.
    split; [reflexivity|].
    apply build_metadata_template_ok in Hb.
    destruct Hb as (names & Hn & ->). simpl. split.
    + apply Forall_forall. intros c Hc. apply in_map_iff in Hc.
      destruct Hc as (n & <- & _). reflexivity.
    + rewrite Hn, map_map. reflexivity.
  - intros c Hc Htext.
    assert (Hin : In (set_text c (item_text item_tree (tag c)))
                    (flat_map (merge_elem item_tree xsd_root)
                       (children template))).
    { apply in_flat_map. exists c. split; [exact Hc|].
      rewrite merge_elem_eq, Htext. left. reflexivity. }
    destruct (flat_map (merge_elem item_tree xsd_root) (children template));
      [destruct Hin | exact Hin].
Qed.

(** C6, as stated, fails: the existing document holds an Email element
    whose text is three spaces, blank once stripped, and Email is declared
    with minOccurs 0; the merge keeps Email, with that text. *)
Lemma merge_keeps_whitespace_only_optional_field :
  is_blank
    (item_text (Sample.metadata [Sample.field "Email" "   ";
                                 Sample.field "Format" "Phone"]) "Email")
  = true
  /\ declared_minOccurs Sample.schemaA "Email" = Some "0"
  /\ get_metadata_template_with_values
       (Sample.metadata [Sample.field "Email" "   ";
                         Sample.field "Format" "Phone"]) Sample.schemaA
     = Ok (Sample.metadata [Sample.field "Email" "   ";
                            Sample.field "Format" "Phone"]).
Proof.
  repeat split; reflexivity.
Qed.

Lemma merge_drops_unset_optional_fields_witness :
  exists merged,
    get_metadata_template_with_values
      (Sample.metadata [Sample.field "Format" "Phone"]) Sample.schemaA
    = Ok merged
    /\ ~ In "Email" (map tag (children merged)).
Proof.
  destruct (@merge_drops_unset_optional_fields
              (Sample.metadata [Sample.field "Format" "Phone"]) Sample.schemaA
              (Sample.metadata [empty_field "Email"; empty_field "Format"])
              eq_refl) as (merged & Hm & Hdrop & _).
  exists merged. split; [exact Hm|].
  apply (Hdrop eq_refl (empty_field "Email")).
  - left. reflexivity.
  - reflexivity.
Defined.

Lemma item_text_truthy item_tree name :
  truthy (item_text item_tree name) = true ->
  exists m, find name item_tree = Some m /\ text m = item_text item_tree name.
Proof.
  unfold item_text. destruct (find name item_tree) as [m|]; simpl.
  - intros _. exists m. auto.
  - discriminate.
Qed.

(** C7, as the code has it.  In the merge the text of a template field is
    replaced by the text of the first element of that name of the existing
    document exactly when that element exists and its text is neither None
    nor the empty string; every other instance of the result is a template
    element left with its empty text.  A text made of white space only is
    not empty, and is copied. *)
Theorem merge_copies_nonempty_text
  (item_tree xsd_root template : Element) :
  build_metadata_template xsd_root = Ok template ->
  exists merged,
    get_metadata_template_with_values item_tree xsd_root = Ok merged
    /\ (forall c m,
          In c (children template) ->
          find (tag c) item_tree = Some m ->
          truthy (text m) = true ->
          In (set_text c (text m)) (children merged))
    /\ (forall c',
          In c' (children merged) ->
          (exists c m,
              In c (children template)
              /\ find (tag c) item_tree = Some m
              /\ truthy (text m) = true
              /\ c' = set_text c (text m))
          \/ (In c' (children template)
              /\ text c' = Some EmptyString
              /\ truthy (item_text item_tree (tag c')) = false)).
Proof.
  intros Hb. eexists. split; [apply merge_result; exact Hb|].
  assert (Hempty : forall c, In c (children template) ->
                             text c = Some EmptyString).
  { apply build_metadata_template_ok in Hb.
    destruct Hb as (names & _ & ->). simpl. intros c Hc.
    apply in_map_iff in Hc. destruct Hc as (n & <- & _). reflexivity. }
  split.
  - intros c m Hc Hfind Htext.
    assert (Hin : In (set_text c (text m))
                    (flat_map (merge_elem item_tree xsd_root)
                       (children template))).
    { apply in_flat_map. exists c. split; [exact Hc|].
      rewrite merge_elem_eq. unfold item_text. rewrite Hfind, Htext.
      left. reflexivity. }
    destruct (flat_map (merge_elem item_tree xsd_root) (children template));
      [destruct Hin | exact Hin].
  - intros c' Hc'.
    destruct (flat_map (merge_elem item_tree xsd_root) (children template))
      as [|k kept] eqn:F.
    + right. pose proof F as Hall. apply flat_map_merge_nil in Hall.
      rewrite forallb_forall in Hall. specialize (Hall c' Hc').
      unfold dropped in Hall. apply andb_true_iff in Hall.
      destruct Hall as [Hall _]. apply negb_true_iff in Hall. auto.
    + change (In c' (k :: kept)) in Hc'. rewrite <- F in Hc'.
      apply in_flat_map in Hc'. destruct Hc' as (c & Hc & Hin).
      rewrite merge_elem_eq in Hin.
      destruct (truthy (item_text item_tree (tag c))) eqn:T.
      * left. destruct (item_text_truthy _ _ T) as (m & Hfind & Htext).
        exists c, m. destruct Hin as [<-|[]].
        rewrite Htext. repeat split; assumption || reflexivity.
      * right. destruct (optional xsd_root c); [destruct Hin|].
        destruct Hin as [<-|[]]. auto.
Qed.

Lemma merge_copies_nonempty_text_witness :
  exists merged,
    get_metadata_template_with_values
      (Sample.metadata [Sample.field "Format" "Phone"]) Sample.schemaA
    = Ok merged
    /\ In (Sample.field "Format" "Phone") (children merged).
Proof.
  destruct (@merge_copies_nonempty_text
              (Sample.metadata [Sample.field "Format" "Phone"]) Sample.schemaA
              (Sample.metadata [empty_field "Email"; empty_field "Format"])
              eq_refl) as (merged & Hm & Hcopy & _).
  exists merged. split; [exact Hm|].
  apply (Hcopy (empty_field "Format") (Sample.field "Format" "Phone")).
  - right. left. reflexivity.
  - reflexivity.
  - reflexivity.
Defined.

(** C7, as stated, fails: the existing document holds a Format element
    whose text is three spaces, blank once stripped, and the merge copies
    that text into the template. *)
Lemma merge_copies_whitespace_only_text :
  is_blank (item_text (Sample.metadata [Sample.field "Format" "   "]) "Format")
  = true
  /\ get_metadata_template_with_values
       (Sample.metadata [Sample.field "Format" "   "]) Sample.schemaA
     = Ok (Sample.metadata [Sample.field "Format" "   "]).
Proof.
  split; reflexivity.
Qed.

(** ** Round trip of the template through its text *)

Lemma reparse_empty_field format level name :
  reparse format level (empty_field name) = new_element name None.
Proof. reflexivity. Qed.

Lemma item_text_of_rendered_template names name :
  item_text
    (fromstring_pretty_print
       (mkElement "metadata" [] None (map empty_field names))) name
  = None.
Proof.
  unfold item_text, find, findall, iterdescendants, fromstring_pretty_print.
  cbn [reparse children text andb]. rewrite map_map.
  induction names as [|n names IH]; [reflexivity|].
  cbn [map flat_map]. rewrite reparse_empty_field.
  cbn [iter children new_element flat_map app filter].
  destruct (has_tag name (mkElement n [] None [])); [reflexivity|].
  exact IH.
Qed.

Lemma flat_map_keep (A : Type) (keep : A -> bool) (l : list A) :
  flat_map (fun a => if keep a then [a] else []) l = filter keep l.
Proof.
  induction l as [|a l IH]; simpl; [reflexivity|].
  destruct (keep a); simpl; rewrite IH; reflexivity.
Qed.

(** C8, as the code has it.  Merging the text of the fresh template into the
    schema gives the template without the fields whose first declaration
    has minOccurs 0, or the whole template when nothing would be left; so it
    gives the template back when every field, or no field, is declared with
    minOccurs 0. *)
Theorem merge_of_rendered_template (xsd_root template : Element) :
  build_metadata_template xsd_root = Ok template ->
  get_metadata_template_with_values (fromstring_pretty_print template) xsd_root
  = Ok (match filter (fun c => negb (optional xsd_root c)) (children template)
        with
        | [] => template
        | kept => set_children template kept
        end)
  /\ (forallb (optional xsd_root) (children template) = true
      \/ forallb (fun c => negb (optional xsd_root c)) (children template) = true ->
      get_metadata_template_with_values (fromstring_pretty_print template)
        xsd_root
      = Ok template).
Proof.
  intros Hb.
  assert (E : flat_map (merge_elem (fromstring_pretty_print template) xsd_root)
                (children template)
              = filter (fun c => negb (optional xsd_root c)) (children template)).
  { rewrite <- flat_map_keep. apply flat_map_ext. intros c.
    rewrite merge_elem_eq.
    destruct (build_metadata_template_ok _ _ Hb) as (names & _ & ->).
    rewrite item_text_of_rendered_template. simpl.
    destruct (optional xsd_root c); reflexivity. }
  rewrite (@merge_result (fromstring_pretty_print template) _ _ Hb), E. split; [reflexivity|].
  intros [Hall|Hnone].
  - replace (filter (fun c => negb (optional xsd_root c)) (children template))
      with (@nil Element); [reflexivity|].
    symmetry. clear E Hb.
    induction (children template) as [|c cs IH]; [reflexivity|].
    simpl in *. apply andb_true_iff in Hall. destruct Hall as [-> Hall].
    simpl. apply IH. exact Hall.
  - replace (filter (fun c => negb (optional xsd_root c)) (children template))
      with (children template).
    + destruct template as [t a x cs]. simpl. destruct cs; reflexivity.
    + symmetry. apply forallb_filter_id. exact Hnone.
Qed.

Lemma merge_of_rendered_template_witness :
  get_metadata_template_with_values
    (fromstring_pretty_print
       (Sample.metadata [empty_field "Format"; empty_field "Categories"]))
    (Sample.schema_of [Sample.Format])
  = Ok (Sample.metadata [empty_field "Format"]).
Proof.
  apply (proj1 (@merge_of_rendered_template
                  (Sample.schema_of [Sample.Format])
                  (Sample.metadata [empty_field "Format"]) eq_refl)).
Defined.

(** C8, as stated, fails: for the schema of scenario A the fresh template
    has the fields Email and Format, and merging its own text gives a
    document that has lost Email, declared with minOccurs 0. *)
Lemma merge_of_rendered_template_loses_optional_field :
  build_metadata_template Sample.schemaA
  = Ok (Sample.metadata [empty_field "Email"; empty_field "Format"])
  /\ get_metadata_template_with_values
       (fromstring_pretty_print
          (Sample.metadata [empty_field "Email"; empty_field "Format"]))
       Sample.schemaA
     = Ok (Sample.metadata [empty_field "Format"])
  /\ Sample.metadata [empty_field "Format"]
     <> Sample.metadata [empty_field "Email"; empty_field "Format"].
Proof.
  split; [reflexivity|]. split; [reflexivity|]. discriminate.
Qed.

(** ** Assignments to the text of the first instance *)

Lemma texts_in_app name l1 l2 :
  texts_in name (l1 ++ l2) = texts_in name l1 ++ texts_in name l2.
Proof.
  unfold texts_in. rewrite filter_app, map_app. reflexivity.
Qed.

Lemma has_tag_mk name tg a x cs :
  has_tag name (mkElement tg a x cs) = String.eqb tg name.
Proof. reflexivity. Qed.

Lemma texts_in_iter name e :
  texts_in name (iter e)
  = (if has_tag name e then [text e] else [])
    ++ texts_in name (iterdescendants e).
Proof.
  unfold texts_in. rewrite filter_iter_cons, map_app.
  destruct (has_tag name e); reflexivity.
Qed.

Section SetText.
Variable m : string.
Variable t : option string.

Lemma assigns_list cs :
  Forall (assigns m t) cs ->
  (forall cs',
      update_first_of (set_text_in m t) cs = Some cs' ->
      map tag cs' = map tag cs
      /\ (exists x r, texts_in m (flat_map iter cs) = x :: r
                      /\ texts_in m (flat_map iter cs') = t :: r)
      /\ (forall n, n <> m ->
                    texts_in n (flat_map iter cs')
                    = texts_in n (flat_map iter cs)))
  /\ (update_first_of (set_text_in m t) cs = None ->
      filter (has_tag m) (flat_map iter cs) = []).
Proof.
  induction 1 as [|c cs Hc Hcs IH]; simpl.
  - split; [discriminate | reflexivity].
  - destruct Hc as [HcS HcN]. destruct IH as [IHS IHN].
    destruct (set_text_in m t c) as [c'|] eqn:U.
    + split; [|discriminate].
      intros cs' E. injection E as <-.
      destruct (HcS c' eq_refl) as (Htag & (x & r & Hx & Hr) & Hother).
      split; [simpl; rewrite Htag; reflexivity|]. split.
      * exists x, (r ++ texts_in m (flat_map iter cs)).
        simpl. rewrite !texts_in_app, Hx, Hr. split; reflexivity.
      * intros n Hn. simpl. rewrite !texts_in_app, (Hother n Hn).
        reflexivity.
    + destruct (update_first_of (set_text_in m t) cs) as [r'|] eqn:R.
      * split; [|discriminate].
        intros cs' E. injection E as <-.
        destruct (IHS r' eq_refl) as (Htags & (x & r & Hx & Hr) & Hother).
        split; [simpl; rewrite Htags; reflexivity|].
        assert (Hnil : texts_in m (iter c) = []).
        { unfold texts_in. rewrite (HcN eq_refl). reflexivity. }
        split.
        -- exists x, r. simpl. rewrite !texts_in_app, Hnil, Hx, Hr.
           split; reflexivity.
        -- intros n Hn. simpl. rewrite !texts_in_app, (Hother n Hn).
           reflexivity.
      * split; [discriminate|].
        intros _. rewrite filter_app, (HcN eq_refl), (IHN eq_refl).
        reflexivity.
Qed.

Lemma set_text_in_assigns e : assigns m t e.
Proof.
  induction e as [tg a x cs IH] using Element_ind'.
  pose proof (assigns_list cs IH) as [LS LN].
  unfold assigns. cbn [set_text_in children].
  rewrite has_tag_mk.
  destruct (String.eqb_spec tg m) as [T|T].
  - split; [|discriminate].
    intros e' E. injection E as <-.
    split; [reflexivity|].
    unfold set_text. cbn [tag attrib children].
    rewrite !texts_in_iter, !has_tag_mk. unfold iterdescendants.
    cbn [children text]. subst tg. rewrite String.eqb_refl. split.
    + eexists _, _. split; reflexivity.
    + intros n Hn. rewrite !texts_in_iter, !has_tag_mk.
      destruct (String.eqb_spec m n) as [E|E]; [congruence|]. reflexivity.
  - destruct (update_first_of (set_text_in m t) cs) as [cs'|] eqn:U.
    + split; [|discriminate].
      intros e' E. injection E as <-.
      destruct (LS cs' eq_refl) as (_ & (y & r & Hy & Hr) & Hother).
      split; [reflexivity|].
      unfold set_children. cbn [tag attrib text].
      rewrite !texts_in_iter, !has_tag_mk. unfold iterdescendants.
      cbn [children text].
      destruct (String.eqb_spec tg m) as [T'|T']; [congruence|]. split.
      * exists y, r. split; assumption.
      * intros n Hn. rewrite !texts_in_iter, !has_tag_mk.
        unfold iterdescendants. cbn [children text].
        rewrite (Hother n Hn). reflexivity.
    + split; [discriminate|].
      intros _. cbn [iter children filter]. rewrite has_tag_mk.
      destruct (String.eqb_spec tg m) as [T'|T']; [congruence|].
      apply LN. reflexivity.
Qed.

Lemma texts_set_text_of_first_other doc n :
  n <> m -> texts n (set_text_of_first m t doc) = texts n doc.
Proof.
  intros Hn. unfold set_text_of_first.
  pose proof (@assigns_list (children doc)) as [LS _].
  { apply Forall_forall. intros c _. apply set_text_in_assigns. }
  destruct (update_first_of (set_text_in m t) (children doc)) as [cs|];
    [|reflexivity].
  destruct (LS cs eq_refl) as (_ & _ & Hother).
  apply (Hother n Hn).
Qed.

Lemma texts_set_text_of_first_same doc :
  texts m doc <> [] ->
  texts m (set_text_of_first m t doc) = t :: tl (texts m doc).
Proof.
  intros Hne. unfold set_text_of_first.
  pose proof (@assigns_list (children doc)) as [LS LN].
  { apply Forall_forall. intros c _. apply set_text_in_assigns. }
  destruct (update_first_of (set_text_in m t) (children doc)) as [cs|].
  - destruct (LS cs eq_refl) as (_ & (x & r & Hx & Hr) & _).
    unfold texts, findall, iterdescendants in *. cbn [set_children children].
    unfold texts_in in Hx, Hr. rewrite Hr, Hx. reflexivity.
  - exfalso. apply Hne. unfold texts, findall, iterdescendants.
    rewrite (LN eq_refl). reflexivity.
Qed.
End SetText.

(** ** Default values *)

Lemma find_some_texts name doc e :
  find name doc = Some e -> texts name doc <> [].
Proof.
  unfold find, texts. destruct (findall name doc); simpl; congruence.
Qed.

(** One declaration of the schema acts on the instances of a multi-valued
    field only by blanking the first of them, and only when it is a
    declaration of that name with minOccurs 0 and optional fields are
    skipped. *)
Lemma populate_step_texts xsd_root skip_optional doc xsd_elem name :
  is_field_multi_valued name xsd_root = true ->
  texts name (populate_step xsd_root skip_optional doc xsd_elem)
  = texts name doc
  \/ (skip_optional = true
      /\ fstr (get xsd_elem "name") = name
      /\ get xsd_elem "minOccurs" = Some "0"
      /\ texts name (populate_step xsd_root skip_optional doc xsd_elem)
         = Some EmptyString :: tl (texts name doc)).
Proof.
  intros Hmulti. unfold populate_step.
  destruct (opt_eqb (get xsd_elem "name") (Some "metadata")); [now left|].
  destruct (find (fstr (get xsd_elem "name")) doc) as [inst|] eqn:F;
    [|now left].
  destruct (String.eqb_spec name (fstr (get xsd_elem "name"))) as [E|E].
  - rewrite <- E in *. rewrite Hmulti. rewrite andb_false_r.
    destruct (opt_eqb_spec (get xsd_elem "minOccurs") (Some "0")) as [M|M];
      [|now left].
    destruct skip_optional; [|now left].
    right. simpl. repeat split; try assumption.
    apply texts_set_text_of_first_same. eapply find_some_texts. exact F.
  - left.
    repeat match goal with
           | |- context [if ?b then _ else _] => destruct b
           end;
      try reflexivity; apply texts_set_text_of_first_other; exact E.
Qed.

Lemma populate_fold_texts xsd_root skip_optional name elems doc :
  is_field_multi_valued name xsd_root = true ->
  let doc' := fold_left (populate_step xsd_root skip_optional) elems doc in
  (skip_optional = false
   \/ (forall e, In e elems -> fstr (get e "name") = name ->
                 get e "minOccurs" <> Some "0") ->
   texts name doc' = texts name doc)
  /\ (texts name doc' = texts name doc
      \/ texts name doc' = Some EmptyString :: tl (texts name doc)).
Proof.
  intros Hmulti. revert doc.
  induction elems as [|e rest IH]; intros doc; simpl.
  - split; auto.
  - destruct (IH (populate_step xsd_root skip_optional doc e)) as [IH1 IH2].
    destruct (@populate_step_texts xsd_root skip_optional doc e name Hmulti)
      as [Same|(Hskip & Hname & Hmin & Blank)].
    + rewrite Same in *. split.
      * intros Hcond. apply IH1. destruct Hcond as [H|H]; [now left|].
        right. intros e' He'. apply H. now right.
      * exact IH2.
    + split.
      * intros [H|H]; [congruence|].
        exfalso. apply (H e); [now left | exact Hname | exact Hmin].
      * right. destruct IH2 as [IH2|IH2]; rewrite IH2, Blank; reflexivity.
Qed.

Lemma lookup_name_not_metadata e name :
  fstr (get e "name") = name -> get e "name" <> Some "metadata" ->
  String.eqb name "metadata" = false.
Proof.
  intros E M. destruct (String.eqb_spec name "metadata") as [H|H];
    [|reflexivity].
  rewrite H in E. destruct (get e "name") as [s|]; simpl in E.
  - congruence.
  - discriminate.
Qed.

(** What one declaration of the schema does to the instances of a
    multi-valued field. *)
Lemma populate_step_multi xsd_root skip_optional doc xsd_elem name :
  is_field_multi_valued name xsd_root = true ->
  texts name (populate_step xsd_root skip_optional doc xsd_elem)
  = if skip_optional && negb (String.eqb name "metadata")
       && optional_declaration name xsd_elem
    then blank_first (texts name doc)
    else texts name doc.
Proof.
  intros Hmulti. unfold optional_declaration, declares.
  destruct (String.eqb_spec (fstr (get xsd_elem "name")) name) as [E|E].
  - unfold populate_step.
    destruct (opt_eqb_spec (get xsd_elem "name") (Some "metadata")) as [M|M].
    + rewrite M in E. simpl in E. subst name.
      rewrite String.eqb_refl. simpl. rewrite andb_false_r. reflexivity.
    + rewrite (lookup_name_not_metadata xsd_elem name E M). rewrite E.
      destruct (find name doc) as [inst|] eqn:F.
      * rewrite Hmulti, andb_false_r.
        pose proof (find_some_texts name doc inst F) as Hne.
        destruct (opt_eqb (get xsd_elem "minOccurs") (Some "0"));
          destruct skip_optional; cbn [andb negb]; try reflexivity.
        rewrite texts_set_text_of_first_same by exact Hne.
        destruct (texts name doc); [congruence | reflexivity].
      * assert (T : texts name doc = []).
        { unfold find in F. unfold texts.
          destruct (findall name doc); [reflexivity | discriminate]. }
        rewrite T.
        destruct (skip_optional && negb false
                  && (true && opt_eqb (get xsd_elem "minOccurs") (Some "0")));
          reflexivity.
  - cbn [andb]. rewrite andb_false_r.
    unfold populate_step.
    repeat match goal with
           | |- context [if ?b then _ else _] => destruct b
           | |- context [match find ?n ?d with _ => _ end] =>
               destruct (find n d)
           end;
      try reflexivity; apply texts_set_text_of_first_other; congruence.
Qed.

Lemma blank_first_idempotent l : blank_first (blank_first l) = blank_first l.
Proof. destruct l; reflexivity. Qed.

Lemma populate_fold_multi xsd_root skip_optional name elems doc :
  is_field_multi_valued name xsd_root = true ->
  texts name (fold_left (populate_step xsd_root skip_optional) elems doc)
  = if skip_optional && negb (String.eqb name "metadata")
       && existsb (optional_declaration name) elems
    then blank_first (texts name doc)
    else texts name doc.
Proof.
  intros Hmulti. revert doc.
  induction elems as [|e rest IH]; intros doc.
  - cbn [fold_left existsb]. rewrite andb_false_r. reflexivity.
  - cbn [fold_left existsb]. rewrite IH.
    rewrite (populate_step_multi xsd_root skip_optional doc e name Hmulti).
    destruct skip_optional; destruct (negb (String.eqb name "metadata"));
      destruct (optional_declaration name e);
      destruct (existsb (optional_declaration name) rest);
      cbn [andb orb]; try reflexivity.
    apply blank_first_idempotent.
Qed.

(** C9, as the code has it.  populate_default_values leaves the texts of
    the instances of a multi-valued field as they were when skip_optional
    is false, and when no declaration of that name has minOccurs 0; in
    every case at most the text of the first instance changes, to the
    empty string.  When skip_optional is true and the field, not named
    metadata, has a declaration with minOccurs 0, the text of its first
    instance, when there is one, is set to the empty string and the other
    instances keep their texts; in every other case all the texts are
    kept. *)
Theorem populate_default_values_multi_valued
  (doc xsd_root : Element) (skip_optional : bool) (name : string) :
  is_field_multi_valued name xsd_root = true ->
  (skip_optional = false
   \/ (forall e, In e (xsd_elements xsd_root) -> fstr (get e "name") = name ->
                 get e "minOccurs" <> Some "0") ->
   texts name (populate_default_values doc xsd_root skip_optional)
   = texts name doc)
  /\ (texts name (populate_default_values doc xsd_root skip_optional)
      = texts name doc
      \/ texts name (populate_default_values doc xsd_root skip_optional)
         = Some EmptyString :: tl (texts name doc))
  /\ texts name (populate_default_values doc xsd_root skip_optional)
     = (if blanks_multi_valued xsd_root skip_optional name
        then blank_first (texts name doc)
        else texts name doc).
Proof.
  intros Hmulti. unfold populate_default_values.
  destruct (@populate_fold_texts xsd_root skip_optional name
              (xsd_elements xsd_root) doc Hmulti) as [H1 H2].
  split; [exact H1|]. split; [exact H2|].
  apply populate_fold_multi. exact Hmulti.
Qed.

Lemma populate_default_values_multi_valued_witness :
  texts "Email"
    (populate_default_values
       (Sample.metadata [Sample.field "Email" "a@test.com";
                         Sample.field "Email" "b@test.com";
                         Sample.field "Format" EmptyString])
       Sample.schemaA false)
  = [Some "a@test.com"; Some "b@test.com"]
  /\ texts "Email"
       (populate_default_values
          (Sample.metadata [Sample.field "Email" "a@test.com";
                            Sample.field "Email" "b@test.com";
                            Sample.field "Format" EmptyString])
          Sample.schemaA true)
     = [Some EmptyString; Some "b@test.com"].
Proof.
  split.
  - apply (proj1 (@populate_default_values_multi_valued
                    (Sample.metadata [Sample.field "Email" "a@test.com";
                                      Sample.field "Email" "b@test.com";
                                      Sample.field "Format" EmptyString])
                    Sample.schemaA false "Email" eq_refl)).
    left. reflexivity.
  - exact (proj2 (proj2 (@populate_default_values_multi_valued
                           (Sample.metadata [Sample.field "Email" "a@test.com";
                                             Sample.field "Email" "b@test.com";
                                             Sample.field "Format" EmptyString])
                           Sample.schemaA true "Email" eq_refl))).
Defined.

(** C9, as stated, fails: Email is multi-valued and declared with
    minOccurs 0; with skip_optional the text of its instance is replaced
    by the empty string. *)
Lemma populate_default_values_blanks_multi_valued :
  is_field_multi_valued "Email" Sample.schemaA = true
  /\ populate_default_values
       (Sample.metadata [Sample.field "Email" "a@test.com";
                         Sample.field "Format" "Phone"])
       Sample.schemaA true
     = Sample.metadata [Sample.field "Email" EmptyString;
                        Sample.field "Format" "Phone"].
Proof.
  split; reflexivity.
Qed.

(** ** Repeated values of a multi-valued field *)

Lemma holders_children field_name value doc :
  holders field_name value doc = holders_in field_name value (children doc).
Proof. reflexivity. Qed.

Lemma holders_in_app field_name value l1 l2 :
  holders_in field_name value (l1 ++ l2)
  = holders_in field_name value l1 ++ holders_in field_name value l2.
Proof.
  unfold holders_in. rewrite flat_map_app, !filter_app. reflexivity.
Qed.

Lemma holders_in_cons field_name value c cs :
  holders_in field_name value (c :: cs)
  = holders_in field_name value [c] ++ holders_in field_name value cs.
Proof. apply (holders_in_app field_name value [c] cs). Qed.

Lemma holders_in_filter_le field_name value (keep : Element -> bool) cs :
  length (holders_in field_name value (filter keep cs))
  <= length (holders_in field_name value cs).
Proof.
  induction cs as [|c cs IH]; [reflexivity|].
  simpl filter. rewrite (holders_in_cons field_name value c cs).
  rewrite length_app. destruct (keep c).
  - rewrite holders_in_cons, length_app. lia.
  - lia.
Qed.

Lemma holders_in_new field_name value :
  holders_in field_name value [new_element field_name (Some value)]
  = [new_element field_name (Some value)].
Proof.
  unfold holders_in, holds, has_tag. simpl.
  rewrite !String.eqb_refl. simpl. rewrite String.eqb_refl. reflexivity.
Qed.

Lemma survives_new field_name value :
  is_blank (Some value) = false ->
  survives field_name (new_element field_name (Some value)) = true.
Proof.
  intros H. unfold survives, new_element. cbn [text]. rewrite H.
  rewrite andb_false_r. reflexivity.
Qed.

Lemma existsb_holds_false value l :
  existsb (fun elem => opt_eqb (text elem) (Some value)) l = false
  <-> filter (holds value) l = [].
Proof.
  unfold holds. induction l as [|e l IH]; simpl; [tauto|].
  destruct (opt_eqb (text e) (Some value)); simpl; [split; discriminate|].
  exact IH.
Qed.

(** The two ways a call on a multi-valued field succeeds. *)
Lemma add_value_multi_inv doc doc' field_name value xsd_root :
  is_field_multi_valued field_name xsd_root = true ->
  add_value_to_metadata (Some doc) field_name value xsd_root
  = (Some doc', Ok tt) ->
  (holders field_name value doc = []
   /\ exists position,
       find_insert_position doc field_name xsd_root = Ok position
       /\ remove_empty_elements
            (insert doc position (new_element field_name (Some value)))
            field_name
          = (doc', Ok tt))
  \/ (holders field_name value doc <> []
      /\ remove_empty_elements doc field_name = (doc', Ok tt)).
Proof.
  intros Hmulti Hcall. unfold add_value_to_metadata in Hcall.
  rewrite Hmulti in Hcall.
  destruct (negb (Nat.eqb (length (get_restriction_values field_name xsd_root)) 0)
            && negb (existsb (opt_eqb (Some value))
                       (get_restriction_values field_name xsd_root)));
    [discriminate|].
  destruct (existsb (fun elem => opt_eqb (text elem) (Some value))
              (findall field_name doc)) eqn:Ex; simpl in Hcall.
  - right. split.
    + intros H. apply existsb_holds_false in H. congruence.
    + destruct (remove_empty_elements doc field_name) as [d r].
      inversion Hcall; subst. reflexivity.
  - left. split; [apply existsb_holds_false; exact Ex|].
    destruct (find_insert_position doc field_name xsd_root) as [p|e];
      [|discriminate].
    exists p. split; [reflexivity|].
    destruct (remove_empty_elements
                (insert doc p (new_element field_name (Some value)))
                field_name) as [d r].
    inversion Hcall; subst. reflexivity.
Qed.

Lemma prune_holders_le parent parent' field_name value :
  remove_empty_elements parent field_name = (parent', Ok tt) ->
  length (holders field_name value parent')
  <= length (holders field_name value parent).
Proof.
  intros H. apply remove_empty_elements_ok in H. destruct H as [-> _].
  rewrite !holders_children. apply holders_in_filter_le.
Qed.

Lemma prune_idempotent parent parent' field_name :
  remove_empty_elements parent field_name = (parent', Ok tt) ->
  remove_empty_elements parent' field_name = (parent', Ok tt).
Proof.
  unfold remove_empty_elements at 1.
  destruct (remove_loop field_name (children parent)) as [cs r] eqn:R.
  intros H. inversion H; subst. clear H.
  apply remove_loop_ok in R. destruct R as [-> Deep].
  unfold remove_empty_elements. cbn [children set_children].
  rewrite remove_loop_total.
  - f_equal. unfold set_children. cbn [tag attrib text]. f_equal.
    induction (children parent) as [|c cs IH]; [reflexivity|].
    simpl. destruct (survives field_name c) eqn:S; simpl.
    + rewrite S. f_equal. apply IH. inversion Deep; assumption.
    + apply IH. inversion Deep; assumption.
  - apply Forall_forall. intros c Hc. apply filter_In in Hc.
    rewrite Forall_forall in Deep. apply Deep. apply Hc.
Qed.

Lemma insert_then_prune_holders doc doc' field_name value position :
  is_blank (Some value) = false ->
  holders field_name value doc = [] ->
  remove_empty_elements
    (insert doc position (new_element field_name (Some value))) field_name
  = (doc', Ok tt) ->
  length (holders field_name value doc') = 1.
Proof.
  intros Hv Hnone H. apply remove_empty_elements_ok in H.
  destruct H as [-> _].
  rewrite holders_children in *. cbn [children set_children insert].
  rewrite filter_app. cbn [filter]. rewrite survives_new by exact Hv.
  rewrite holders_in_app, holders_in_cons, holders_in_new, !length_app.
  pose proof (holders_in_filter_le field_name value (survives field_name)
                (firstn position (children doc))) as L1.
  pose proof (holders_in_filter_le field_name value (survives field_name)
                (skipn position (children doc))) as L2.
  assert (Hsplit : length (holders_in field_name value
                             (firstn position (children doc)))
                   + length (holders_in field_name value
                               (skipn position (children doc))) = 0).
  { rewrite <- length_app, <- holders_in_app, firstn_skipn, Hnone.
    reflexivity. }
  simpl. lia.
Qed.

(** C4, as the code has it.  For a multi-valued field, a value that is not
    blank and a document in which at most one instance of the field holds
    the value: after two successive calls that both succeed, exactly one
    instance of the field has the value as its text; and when the value is
    in the document after the first call, the second call changes
    nothing. *)
Theorem add_value_twice_same_value
  (doc doc1 doc2 : Element) (field_name value : string) (xsd_root : Element) :
  is_field_multi_valued field_name xsd_root = true ->
  is_blank (Some value) = false ->
  length (holders field_name value doc) <= 1 ->
  add_value_to_metadata (Some doc) field_name value xsd_root
  = (Some doc1, Ok tt) ->
  add_value_to_metadata (Some doc1) field_name value xsd_root
  = (Some doc2, Ok tt) ->
  length (holders field_name value doc2) = 1
  /\ (holders field_name value doc1 <> [] -> doc2 = doc1).
Proof.
  intros Hmulti Hv Hle Hcall1 Hcall2.
  assert (Hpruned : remove_empty_elements doc1 field_name = (doc1, Ok tt)).
  { destruct (add_value_multi_inv _ _ _ _ _ Hmulti Hcall1)
      as [(_ & p & _ & R)|(_ & R)]; apply prune_idempotent in R; exact R. }
  assert (Hle1 : length (holders field_name value doc1) <= 1).
  { destruct (add_value_multi_inv _ _ _ _ _ Hmulti Hcall1)
      as [(Hnone & p & _ & R)|(_ & R)].
    - rewrite (insert_then_prune_holders _ _ _ _ _ Hv Hnone R). lia.
    - pose proof (prune_holders_le _ _ _ value R). lia. }
  destruct (add_value_multi_inv _ _ _ _ _ Hmulti Hcall2)
    as [(Hnone & p & _ & R)|(Hsome & R)].
  - split; [apply (insert_then_prune_holders _ _ _ _ _ Hv Hnone R)|].
    intros H. contradiction.
  - rewrite Hpruned in R. inversion R; subst doc2.
    split; [|reflexivity].
    destruct (holders field_name value doc1); simpl in *; [congruence | lia].
Qed.

Lemma add_value_twice_same_value_witness :
  length (holders "Email" "a@test.com"
            (Sample.metadata [Sample.field "Email" "a@test.com";
                              Sample.field "Format" EmptyString])) = 1.
Proof.
  apply (proj1 (add_value_twice_same_value
                  (Sample.metadata [empty_field "Email"; empty_field "Format"])
                  (Sample.metadata [Sample.field "Email" "a@test.com";
                                    Sample.field "Format" EmptyString])
                  (Sample.metadata [Sample.field "Email" "a@test.com";
                                    Sample.field "Format" EmptyString])
                  "Email" "a@test.com" Sample.schemaA
                  eq_refl eq_refl (Nat.le_0_l 1) eq_refl eq_refl)).
Defined.

(** C4, as stated, fails: on the fresh template of scenario A, two calls
    for the multi-valued field Email with the empty string both succeed
    and leave no instance of Email at all. *)
Lemma add_value_twice_empty_value_leaves_no_instance :
  add_value_to_metadata
    (Some (Sample.metadata [empty_field "Email"; empty_field "Format"]))
    "Email" EmptyString Sample.schemaA
  = (Some (Sample.metadata [empty_field "Format"]), Ok tt)
  /\ add_value_to_metadata
       (Some (Sample.metadata [empty_field "Format"]))
       "Email" EmptyString Sample.schemaA
     = (Some (Sample.metadata [empty_field "Format"]), Ok tt)
  /\ findall "Email" (Sample.metadata [empty_field "Format"]) = [].
Proof.
  repeat split; reflexivity.
Qed.

(** ** Ordering of the field instances *)

Lemma before_incl field_name names : incl (before field_name names) names.
Proof.
  induction names as [|n rest IH]; simpl; [apply incl_refl|].
  destruct (String.eqb n field_name).
  - intros x [].
  - intros x [<-|H]; [now left | right; apply IH; exact H].
Qed.

Lemma firstn_skipn_past (A : Type) (l1 l2 : list A) (k p : nat) :
  length l1 = k ->
  firstn (k + p) (l1 ++ l2) = l1 ++ firstn p l2
  /\ skipn (k + p) (l1 ++ l2) = skipn p l2.
Proof.
  intros <-. split.
  - apply firstn_app_2.
  - rewrite skipn_app, skipn_all2 by lia.
    replace (length l1 + p - length l1) with p by lia. reflexivity.
Qed.

Lemma map_constant (A B : Type) (g : A -> B) (b : B) (l : list A) :
  (forall x, In x l -> g x = b) -> map g l = repeat b (length l).
Proof.
  induction l as [|a l IH]; simpl; intros H; [reflexivity|].
  rewrite (H a) by now left. f_equal. apply IH. intros x Hx. apply H. now right.
Qed.

Lemma layout_tags all names tags :
  layout all names tags -> Forall (fun t => In t names \/ ~ In t all) tags.
Proof.
  revert tags. induction names as [|n ns IH]; simpl; intros tags H.
  - eapply Forall_impl; [|exact H]. intros t Ht. now right.
  - destruct H as (k & rest & -> & H). apply Forall_app. split.
    + apply Forall_forall. intros t Ht. apply repeat_spec in Ht.
      left. left. congruence.
    + eapply Forall_impl; [|apply IH; exact H].
      intros t [Ht|Ht]; [left; now right | now right].
Qed.

Lemma layout_absent all n ns rest :
  ~ In n ns -> In n all -> layout all ns rest -> ~ In n rest.
Proof.
  intros Hn Hall H Hin. apply layout_tags in H.
  rewrite Forall_forall in H. destruct (H n Hin); contradiction.
Qed.

Lemma layout_names all names : layout all names names.
Proof.
  induction names as [|n ns IH]; simpl; [constructor|].
  exists 1, ns. split; [reflexivity | exact IH].
Qed.

Lemma layout_insert all names tags field_name :
  NoDup names -> incl names all -> layout all names tags ->
  In field_name names \/ ~ In field_name all ->
  layout all names
    (firstn (list_sum (map (count_occ string_dec tags)
                         (before field_name names))) tags
     ++ field_name
     :: skipn (list_sum (map (count_occ string_dec tags)
                           (before field_name names))) tags).
Proof.
  revert tags. induction names as [|n ns IH]; intros tags Hnd Hincl H Hf.
  - simpl in *. constructor; [|exact H]. destruct Hf as [[]|Hf]. exact Hf.
  - simpl in H. destruct H as (k & rest & -> & H).
    inversion Hnd as [|? ? Hn Hnd']; subst.
    assert (Hnall : In n all) by (apply Hincl; now left).
    assert (Hincl' : incl ns all)
      by (intros x Hx; apply Hincl; now right).
    simpl before. destruct (String.eqb_spec n field_name) as [E|E].
    + subst n. simpl. exists (S k), rest. split; [reflexivity | exact H].
    + cbn [map list_sum].
      assert (Hk : count_occ string_dec (repeat n k ++ rest) n = k).
      { rewrite count_occ_app, count_occ_repeat_eq by reflexivity.
        assert (count_occ string_dec rest n = 0)
          by (apply count_occ_not_In; eapply layout_absent; eauto).
        lia. }
      assert (Hsum : map (count_occ string_dec (repeat n k ++ rest))
                       (before field_name ns)
                     = map (count_occ string_dec rest)
                         (before field_name ns)).
      { apply map_ext_in. intros m Hm. apply before_incl in Hm.
        rewrite count_occ_app, count_occ_repeat_neq; [reflexivity|].
        intros ->. contradiction. }
      rewrite Hk, Hsum.
      change (list_sum (k :: ?l)) with (k + list_sum l).
      destruct (firstn_skipn_past _ (repeat n k) rest k
                  (list_sum (map (count_occ string_dec rest)
                               (before field_name ns)))
                  (repeat_length n k)) as [-> ->].
      simpl. exists k. eexists. split; [rewrite <- app_assoc; reflexivity|].
      apply IH; try assumption.
      destruct Hf as [[Hf|Hf]|Hf]; [congruence | now left | now right].
Qed.

Lemma layout_filter all (keep : Element -> bool) names cs :
  layout all names (map tag cs) -> layout all names (map tag (filter keep cs)).
Proof.
  revert cs. induction names as [|n ns IH]; simpl; intros cs H.
  - rewrite Forall_map in *. rewrite Forall_forall in *.
    intros c Hc. apply filter_In in Hc. apply H. apply Hc.
  - destruct H as (k & rest & Hsplit & H).
    apply map_eq_app in Hsplit.
    destruct Hsplit as (a & b & -> & Ha & <-).
    rewrite filter_app, map_app.
    exists (length (filter keep a)), (map tag (filter keep b)).
    split; [|apply IH; exact H]. f_equal.
    apply map_constant. intros c Hc. apply filter_In in Hc.
    destruct Hc as [Hc _].
    assert (Hin : In (tag c) (repeat n k))
      by (rewrite <- Ha; apply in_map; exact Hc).
    apply repeat_spec in Hin. exact Hin.
Qed.

Lemma index_from_ge k field_name names p :
  index_from k field_name names = Some p -> k <= p.
Proof.
  revert k. induction names as [|n rest IH]; simpl; intros k H.
  - discriminate.
  - destruct (String.eqb n field_name).
    + injection H as <-. lia.
    + apply IH in H. lia.
Qed.

Lemma position_loop_index field_name elems names k :
  map (fun e => get e "name") elems = map Some names ->
  position_loop field_name elems k = index_from k field_name names.
Proof.
  revert names k. induction elems as [|e rest IH]; intros names k H.
  - destruct names; [reflexivity | discriminate].
  - destruct names as [|n names]; [discriminate|].
    simpl in H. injection H as Hn Hrest. simpl. rewrite Hn. simpl.
    destruct (String.eqb n field_name); [reflexivity|].
    apply IH. exact Hrest.
Qed.

Lemma preceding_before field_name elems names :
  map (fun e => get e "name") elems = map Some names ->
  preceding field_name elems = before field_name names.
Proof.
  revert names. induction elems as [|e rest IH]; intros names H.
  - destruct names; [reflexivity | discriminate].
  - destruct names as [|n names]; [discriminate|].
    simpl in H. injection H as Hn Hrest. simpl. rewrite Hn. simpl.
    destruct (String.eqb n field_name); [reflexivity|].
    f_equal. apply IH. exact Hrest.
Qed.

Section OrderedPairs.
Variable A : Type.

Lemma FOP_app (R : A -> A -> Prop) (l1 l2 : list A) :
  ForallOrdPairs R l1 -> ForallOrdPairs R l2 ->
  (forall x y, In x l1 -> In y l2 -> R x y) ->
  ForallOrdPairs R (l1 ++ l2).
Proof.
  intros H1 H2 Hcross. induction H1 as [|a l Ha Hl IH]; simpl; [exact H2|].
  constructor.
  - apply Forall_app. split; [exact Ha|].
    apply Forall_forall. intros y Hy. apply Hcross; [now left | exact Hy].
  - apply IH. intros x y Hx Hy. apply Hcross; [now right | exact Hy].
Qed.

Lemma FOP_impl_in (R R' : A -> A -> Prop) (l : list A) :
  (forall x y, In x l -> In y l -> R x y -> R' x y) ->
  ForallOrdPairs R l -> ForallOrdPairs R' l.
Proof.
  intros Himp H. induction H as [|a l Ha Hl IH]; constructor.
  - rewrite Forall_forall in *. intros y Hy.
    apply Himp; [now left | now right | apply Ha; exact Hy].
  - apply IH. intros x y Hx Hy. apply Himp; now right.
Qed.

Lemma FOP_repeat (R : A -> A -> Prop) (a : A) (k : nat) :
  R a a -> ForallOrdPairs R (repeat a k).
Proof.
  intros Ha. induction k as [|k IH]; simpl; constructor; [|exact IH].
  apply Forall_forall. intros y Hy. apply repeat_spec in Hy. now subst.
Qed.

Lemma FOP_of_map (B : Type) (g : A -> B) (R : B -> B -> Prop) (l : list A) :
  ForallOrdPairs R (map g l) ->
  ForallOrdPairs (fun x y => R (g x) (g y)) l.
Proof.
  induction l as [|a l IH]; simpl; intros H; [constructor|].
  inversion H as [|? ? Ha Hl]; subst. constructor.
  - rewrite Forall_map in Ha. exact Ha.
  - apply IH. exact Hl.
Qed.
End OrderedPairs.

Lemma layout_ordered all names tags k :
  NoDup names -> incl names all -> layout all names tags ->
  ForallOrdPairs
    (fun s t => forall p q,
         index_from k s names = Some p -> index_from k t names = Some q ->
         p <= q) tags.
Proof.
  revert tags k. induction names as [|n ns IH]; intros tags k Hnd Hincl H.
  - clear H. induction tags as [|t tags IHt]; constructor; [|exact IHt].
    apply Forall_forall. intros y _ p q Hp. discriminate.
  - simpl in H. destruct H as (r & rest & -> & H).
    inversion Hnd as [|? ? Hn Hnd']; subst.
    assert (Hnall : In n all) by (apply Hincl; now left).
    assert (Hincl' : incl ns all) by (intros x Hx; apply Hincl; now right).
    assert (Hrest : forall s, In s rest -> String.eqb n s = false).
    { intros s Hs. destruct (String.eqb_spec n s) as [E|E]; [|reflexivity].
      subst s. exfalso. exact (layout_absent all n ns rest Hn Hnall H Hs). }
    apply FOP_app.
    + apply FOP_repeat. intros p q. simpl. rewrite String.eqb_refl.
      intros Hp Hq. injection Hp as <-. injection Hq as <-. lia.
    + apply FOP_impl_in with (2 := IH rest (S k) Hnd' Hincl' H).
      intros s t Hs Ht Hst p q. simpl.
      rewrite (Hrest s Hs), (Hrest t Ht). apply Hst.
    + intros s t Hs Ht p q. apply repeat_spec in Hs. subst s. simpl.
      rewrite String.eqb_refl, (Hrest t Ht). intros Hp Hq.
      injection Hp as <-. apply index_from_ge in Hq. lia.
Qed.

Lemma layout_block all names tags name :
  NoDup names -> incl names all -> layout all names tags -> In name names ->
  exists t1 k t3,
    tags = t1 ++ repeat name k ++ t3 /\ ~ In name t1 /\ ~ In name t3.
Proof.
  revert tags. induction names as [|n ns IH]; intros tags Hnd Hincl H Hin.
  - destruct Hin.
  - simpl in H. destruct H as (r & rest & -> & H).
    inversion Hnd as [|? ? Hn Hnd']; subst.
    assert (Hnall : In n all) by (apply Hincl; now left).
    assert (Hincl' : incl ns all) by (intros x Hx; apply Hincl; now right).
    destruct (string_dec n name) as [E|E].
    + subst n. exists [], r, rest. split; [reflexivity|]. split; [intros []|].
      exact (layout_absent all name ns rest Hn Hnall H).
    + destruct Hin as [Hin|Hin]; [contradiction|].
      destruct (IH rest Hnd' Hincl' H Hin) as (t1 & k & t3 & -> & H1 & H3).
      exists (repeat n r ++ t1), k, t3. split; [now rewrite app_assoc|].
      split; [|exact H3].
      intros Hx. apply in_app_or in Hx. destruct Hx as [Hx|Hx].
      * apply repeat_spec in Hx. congruence.
      * contradiction.
Qed.

(** ** Flat documents *)

Lemma flat_map_iter_leaves cs : Forall leaf cs -> flat_map iter cs = cs.
Proof.
  induction 1 as [|c cs Hc Hcs IH]; simpl; [reflexivity|].
  destruct c as [t a x l]. unfold leaf in Hc. simpl in *. subst l.
  simpl. f_equal. exact IH.
Qed.

Lemma flat_findall name doc :
  flat doc -> findall name doc = filter (has_tag name) (children doc).
Proof.
  intros H. unfold findall, iterdescendants.
  rewrite flat_map_iter_leaves by exact H. reflexivity.
Qed.

Lemma filter_has_tag_count name cs :
  length (filter (has_tag name) cs) = count_occ string_dec (map tag cs) name.
Proof.
  induction cs as [|c cs IH]; simpl; [reflexivity|].
  unfold has_tag at 1.
  destruct (String.eqb_spec (tag c) name) as [E|E];
    destruct (string_dec (tag c) name); try contradiction; simpl; lia.
Qed.

Lemma leaf_no_deep_blank field_name c :
  leaf c -> no_deep_blank field_name c = true.
Proof.
  unfold leaf, no_deep_blank, findall, iterdescendants. intros ->. reflexivity.
Qed.

Lemma flat_remove_empty_elements doc field_name :
  flat doc ->
  remove_empty_elements doc field_name = (prune field_name doc, Ok tt).
Proof.
  intros H. unfold remove_empty_elements. rewrite remove_loop_total.
  - reflexivity.
  - eapply Forall_impl; [|exact H]. intros c. apply leaf_no_deep_blank.
Qed.

Lemma flat_update_first name t cs cs' :
  Forall leaf cs ->
  update_first_of (set_text_in name t) cs = Some cs' ->
  Forall leaf cs' /\ map tag cs' = map tag cs.
Proof.
  intros H. revert cs'. induction H as [|c cs Hc Hcs IH]; simpl; intros cs' E.
  - discriminate.
  - destruct c as [tg a x l]. unfold leaf in Hc. simpl in Hc. subst l.
    simpl in E. destruct (has_tag name (mkElement tg a x [])).
    + injection E as <-. split; [constructor; [reflexivity | exact Hcs]|].
      reflexivity.
    + destruct (update_first_of (set_text_in name t) cs) as [r|];
        [|discriminate].
      injection E as <-. destruct (IH r eq_refl) as [Hr Ht].
      split; [constructor; [reflexivity | exact Hr]|].
      simpl. f_equal. exact Ht.
Qed.

Lemma flat_set_text_of_first name t doc :
  flat doc ->
  flat (set_text_of_first name t doc)
  /\ map tag (children (set_text_of_first name t doc))
     = map tag (children doc).
Proof.
  intros H. unfold set_text_of_first.
  destruct (update_first_of (set_text_in name t) (children doc)) as [cs|] eqn:U.
  - apply flat_update_first in U; [|exact H]. exact U.
  - split; [exact H | reflexivity].
Qed.

(** ** Schemas whose fields are the fields of the sequence *)

Lemma map_Some_inj (A : Type) (l1 l2 : list A) :
  map Some l1 = map Some l2 -> l1 = l2.
Proof.
  revert l2. induction l1 as [|a l1 IH]; intros [|b l2] H;
    try discriminate; [reflexivity|].
  simpl in H. injection H as -> H. f_equal. apply IH. exact H.
Qed.

Lemma sequence_schema_position xsd_root names field_name :
  sequence_schema xsd_root names ->
  find_position_for_new_element field_name xsd_root
  = index_from 0 field_name names.
Proof.
  intros (sequence & Hseq & Hnames & _ & _).
  unfold find_position_for_new_element. rewrite Hseq.
  apply position_loop_index. exact Hnames.
Qed.

Lemma flat_find_insert_position xsd_root names doc field_name :
  sequence_schema xsd_root names -> flat doc ->
  find_insert_position doc field_name xsd_root
  = Ok (list_sum (map (count_occ string_dec (map tag (children doc)))
                    (before field_name names))).
Proof.
  intros (sequence & Hseq & Hnames & _ & _) Hflat.
  unfold find_insert_position. rewrite Hseq, insert_loop_sum.
  fold (sequence_fields sequence).
  rewrite (preceding_before field_name _ names Hnames). simpl. f_equal.
  f_equal. apply map_ext. intros n.
  rewrite flat_findall by exact Hflat. apply filter_has_tag_count.
Qed.

Lemma well_laid_template xsd_root names template :
  sequence_schema xsd_root names ->
  build_metadata_template xsd_root = Ok template ->
  well_laid names template.
Proof.
  intros (sequence & _ & _ & Hdecl & _) Hb.
  apply build_metadata_template_ok in Hb.
  destruct Hb as (names' & Hn & ->).
  rewrite Hdecl in Hn. apply map_Some_inj in Hn. subst names'.
  split.
  - unfold flat. simpl. apply Forall_forall. intros c Hc.
    apply in_map_iff in Hc. destruct Hc as (n & <- & _). reflexivity.
  - simpl. rewrite map_map. simpl. rewrite map_id. apply layout_names.
Qed.

Lemma well_laid_prune names field_name doc :
  well_laid names doc -> well_laid names (prune field_name doc).
Proof.
  intros [Hflat Hlay]. split.
  - unfold flat, prune. simpl. apply Forall_forall. intros c Hc.
    apply filter_In in Hc. unfold flat in Hflat.
    rewrite Forall_forall in Hflat. apply Hflat. apply Hc.
  - unfold prune. simpl. apply layout_filter. exact Hlay.
Qed.

Lemma well_laid_set_text names name t doc :
  well_laid names doc -> well_laid names (set_text_of_first name t doc).
Proof.
  intros [Hflat Hlay].
  destruct (flat_set_text_of_first name t doc Hflat) as [Hf Ht].
  split; [exact Hf|]. rewrite Ht. exact Hlay.
Qed.

Lemma well_laid_insert names doc field_name value :
  NoDup names -> well_laid names doc ->
  well_laid names
    (insert doc
       (list_sum (map (count_occ string_dec (map tag (children doc)))
                    (before field_name names)))
       (new_element field_name (Some value))).
Proof.
  intros Hnd [Hflat Hlay]. split.
  - unfold flat, insert. simpl. unfold flat in Hflat.
    rewrite <- (firstn_skipn
                  (list_sum (map (count_occ string_dec (map tag (children doc)))
                               (before field_name names)))
                  (children doc)) in Hflat.
    apply Forall_app in Hflat. destruct Hflat as [H1 H2].
    apply Forall_app. split; [exact H1|].
    constructor; [reflexivity | exact H2].
  - unfold insert. simpl. rewrite map_app. simpl.
    rewrite <- firstn_map, <- skipn_map.
    apply layout_insert; [exact Hnd | apply incl_refl | exact Hlay|].
    destruct (in_dec string_dec field_name names); [now left | now right].
Qed.

Lemma merge_children item_tree xsd_root cs :
  flat_map (merge_elem item_tree xsd_root) cs
  = map (fun c => if truthy (item_text item_tree (tag c))
                  then set_text c (item_text item_tree (tag c)) else c)
      (filter (fun c => negb (dropped item_tree xsd_root c)) cs).
Proof.
  induction cs as [|c cs IH]; simpl; [reflexivity|].
  rewrite IH, merge_elem_eq. unfold dropped.
  destruct (truthy (item_text item_tree (tag c))) eqn:T; simpl.
  - rewrite T. reflexivity.
  - destruct (optional xsd_root c); simpl; [reflexivity|].
    rewrite T. reflexivity.
Qed.

Lemma well_laid_merge xsd_root names item_tree merged :
  sequence_schema xsd_root names ->
  get_metadata_template_with_values item_tree xsd_root = Ok merged ->
  well_laid names merged.
Proof.
  intros Hs Hm.
  destruct (build_metadata_template xsd_root) as [template|e] eqn:Hb.
  2:{ unfold get_metadata_template_with_values in Hm. rewrite Hb in Hm.
      discriminate. }
  rewrite (merge_result item_tree xsd_root template Hb) in Hm.
  injection Hm as <-.
  pose proof (well_laid_template xsd_root names template Hs Hb) as Ht.
  destruct (flat_map (merge_elem item_tree xsd_root) (children template))
    as [|k kept] eqn:F; [exact Ht|].
  rewrite <- F, merge_children. destruct Ht as [Hflat Hlay]. split.
  - unfold flat. simpl. apply Forall_forall. intros c Hc.
    apply in_map_iff in Hc. destruct Hc as (c0 & <- & Hc0).
    apply filter_In in Hc0. destruct Hc0 as [Hc0 _].
    unfold flat in Hflat. rewrite Forall_forall in Hflat.
    specialize (Hflat c0 Hc0).
    destruct (truthy (item_text item_tree (tag c0))); exact Hflat.
  - simpl. rewrite map_map.
    rewrite (map_ext _ tag).
    + apply layout_filter. exact Hlay.
    + intros c. destruct (truthy (item_text item_tree (tag c))); reflexivity.
Qed.

Lemma well_laid_add_value xsd_root names doc doc' field_name value r :
  sequence_schema xsd_root names -> well_laid names doc ->
  add_value_to_metadata (Some doc) field_name value xsd_root = (Some doc', r) ->
  well_laid names doc'.
Proof.
  intros Hs Hw Hcall.
  assert (Hnd : NoDup names) by (destruct Hs as (? & _ & _ & _ & H); exact H).
  pose proof (well_laid_insert names doc field_name value Hnd Hw) as Hins.
  unfold add_value_to_metadata in Hcall.
  rewrite (flat_find_insert_position xsd_root names doc field_name Hs (proj1 Hw))
    in Hcall.
  destruct (negb (Nat.eqb (length (get_restriction_values field_name xsd_root)) 0)
            && negb (existsb (opt_eqb (Some value))
                       (get_restriction_values field_name xsd_root))).
  { injection Hcall as <- _. exact Hw. }
  destruct (is_field_multi_valued field_name xsd_root).
  - destruct (negb (existsb (fun elem => opt_eqb (text elem) (Some value))
                      (findall field_name doc))).
    + rewrite flat_remove_empty_elements in Hcall by apply Hins.
      injection Hcall as <- _. apply well_laid_prune. exact Hins.
    + rewrite flat_remove_empty_elements in Hcall by apply Hw.
      injection Hcall as <- _. apply well_laid_prune. exact Hw.
  - destruct (findall field_name doc).
    + injection Hcall as <- _. exact Hins.
    + injection Hcall as <- _. apply well_laid_set_text. exact Hw.
Qed.

Lemma well_laid_populate xsd_root names skip_optional doc :
  well_laid names doc ->
  well_laid names (populate_default_values doc xsd_root skip_optional).
Proof.
  unfold populate_default_values. revert doc.
  induction (xsd_elements xsd_root) as [|e rest IH]; intros doc Hw; simpl;
    [exact Hw|].
  apply IH. unfold populate_step.
  repeat match goal with
         | |- context [if ?b then _ else _] => destruct b
         | |- context [match find ?n ?d with _ => _ end] => destruct (find n d)
         end;
    try exact Hw; apply well_laid_set_text; exact Hw.
Qed.

(** ** The documents that the operations produce *)

Lemma produced_well_laid xsd_root names doc :
  sequence_schema xsd_root names -> produced xsd_root doc ->
  well_laid names doc.
Proof.
  intros Hs H. induction H as [t Hb|item t Hm|doc f v doc' r _ IH Hcall
                              |doc skip _ IH].
  - exact (well_laid_template xsd_root names t Hs Hb).
  - exact (well_laid_merge xsd_root names item t Hs Hm).
  - exact (well_laid_add_value xsd_root names doc doc' f v r Hs IH Hcall).
  - exact (well_laid_populate xsd_root names skip doc IH).
Qed.

(** ** Where a new instance of a multi-valued field goes *)

Lemma layout_insert_point all names tags field_name :
  NoDup names -> incl names all -> layout all names tags ->
  In field_name names ->
  ~ In field_name
      (firstn (list_sum (map (count_occ string_dec tags)
                           (before field_name names))) tags).
Proof.
  revert tags. induction names as [|n ns IH]; intros tags Hnd Hincl H Hf.
  - destruct Hf.
  - simpl in H. destruct H as (k & rest & -> & H).
    inversion Hnd as [|? ? Hn Hnd']; subst.
    assert (Hnall : In n all) by (apply Hincl; now left).
    assert (Hincl' : incl ns all) by (intros x Hx; apply Hincl; now right).
    simpl before. destruct (String.eqb_spec n field_name) as [E|E].
    + simpl. intros [].
    + cbn [map].
      assert (Hk : count_occ string_dec (repeat n k ++ rest) n = k).
      { rewrite count_occ_app, count_occ_repeat_eq by reflexivity.
        assert (count_occ string_dec rest n = 0)
          by (apply count_occ_not_In; eapply layout_absent; eauto).
        lia. }
      assert (Hsum : map (count_occ string_dec (repeat n k ++ rest))
                       (before field_name ns)
                     = map (count_occ string_dec rest) (before field_name ns)).
      { apply map_ext_in. intros m Hm. apply before_incl in Hm.
        rewrite count_occ_app, count_occ_repeat_neq; [reflexivity|].
        intros ->. contradiction. }
      rewrite Hk, Hsum.
      change (list_sum (k :: ?l)) with (k + list_sum l).
      destruct (firstn_skipn_past _ (repeat n k) rest k
                  (list_sum (map (count_occ string_dec rest)
                               (before field_name ns)))
                  (repeat_length n k)) as [-> _].
      intros Hin. apply in_app_or in Hin. destruct Hin as [Hin|Hin].
      * apply repeat_spec in Hin. congruence.
      * destruct Hf as [Hf|Hf]; [congruence|].
        exact (IH rest Hnd' Hincl' H Hf Hin).
Qed.

Lemma filter_has_tag_absent name cs :
  ~ In name (map tag cs) -> filter (has_tag name) cs = [].
Proof.
  induction cs as [|c cs IH]; simpl; intros H; [reflexivity|].
  unfold has_tag at 1. destruct (String.eqb_spec (tag c) name) as [E|E].
  - exfalso. apply H. now left.
  - apply IH. intros Hin. apply H. now right.
Qed.

Lemma texts_prune field_name doc :
  flat doc ->
  texts field_name (prune field_name doc)
  = filter nonblank_text (texts field_name doc).
Proof.
  intros Hflat.
  assert (Hflat' : flat (prune field_name doc)).
  { unfold flat, prune. simpl. apply Forall_forall. intros c Hc.
    apply filter_In in Hc. unfold flat in Hflat.
    rewrite Forall_forall in Hflat. apply Hflat. apply Hc. }
  unfold texts. rewrite !flat_findall by assumption.
  unfold prune. simpl. clear Hflat Hflat'.
  induction (children doc) as [|c cs IH]; [reflexivity|].
  cbn [filter]. unfold survives at 1.
  destruct (has_tag field_name c) eqn:T; destruct (is_blank (text c)) eqn:B;
    cbn [andb negb filter map]; rewrite ?T; cbn [filter map];
    change (nonblank_text (text c)) with (negb (is_blank (text c)));
    rewrite ?B; cbn [negb]; rewrite IH; reflexivity.
Qed.

Lemma texts_insert names doc field_name value :
  NoDup names -> well_laid names doc -> In field_name names ->
  texts field_name
    (insert doc
       (list_sum (map (count_occ string_dec (map tag (children doc)))
                    (before field_name names)))
       (new_element field_name (Some value)))
  = Some value :: texts field_name doc.
Proof.
  intros Hnd Hw Hin.
  pose proof (well_laid_insert names doc field_name value Hnd Hw) as [Hflat' _].
  destruct Hw as [Hflat Hlay].
  unfold texts. rewrite !flat_findall by assumption.
  unfold insert. cbn [children set_children].
  set (p := list_sum (map (count_occ string_dec (map tag (children doc)))
                        (before field_name names))).
  assert (Hfirst : filter (has_tag field_name) (firstn p (children doc)) = []).
  { apply filter_has_tag_absent. rewrite <- firstn_map.
    apply (layout_insert_point names names); try assumption.
    apply incl_refl. }
  rewrite filter_app, Hfirst. cbn [filter app].
  unfold has_tag at 1. cbn [new_element tag]. rewrite String.eqb_refl.
  cbn [map text]. f_equal.
  rewrite <- (firstn_skipn p (children doc)) at 2.
  rewrite filter_app, Hfirst. reflexivity.
Qed.

Lemma not_in_tags name cs :
  ~ In name (map tag cs) -> Forall (fun c => tag c <> name) cs.
Proof.
  intros H. apply Forall_forall. intros c Hc E. apply H.
  rewrite <- E. apply in_map. exact Hc.
Qed.

Lemma well_laid_contiguous names doc name :
  NoDup names -> well_laid names doc -> In name names ->
  contiguous name (children doc).
Proof.
  intros Hnd [_ Hlay] Hin.
  destruct (layout_block names names _ name Hnd (incl_refl _) Hlay Hin)
    as (t1 & k & t3 & Htags & H1 & H3).
  apply map_eq_app in Htags. destruct Htags as (l1 & l23 & -> & <- & Htags).
  apply map_eq_app in Htags. destruct Htags as (l2 & l3 & -> & H2 & <-).
  exists l1, l2, l3. split; [reflexivity|]. split; [|split].
  - apply Forall_forall. intros c Hc.
    assert (Hr : In (tag c) (repeat name k))
      by (rewrite <- H2; apply in_map; exact Hc).
    apply repeat_spec in Hr. exact Hr.
  - apply not_in_tags. exact H1.
  - apply not_in_tags. exact H3.
Qed.

(** C3, as the code has it.  For a schema whose field declarations are the
    elements of its first sequence, with distinct names: every document
    that build_metadata_template, get_metadata_template_with_values,
    add_value_to_metadata and populate_default_values produce is flat, its
    instances are in the order of the sequence, and the instances of each
    field of the sequence form one block.  A new instance of a multi-valued
    field is put in front of the instances the field already has: after the
    call the texts of the field are the new value followed by the former
    texts, the blank ones dropped. *)
Theorem produced_documents_follow_sequence
  (xsd_root : Element) (names : list string) (doc : Element) :
  sequence_schema xsd_root names ->
  produced xsd_root doc ->
  flat doc
  /\ in_sequence_order xsd_root (children doc)
  /\ (forall name, In name names -> contiguous name (children doc))
  /\ (forall field_name value doc',
         In field_name names ->
         is_field_multi_valued field_name xsd_root = true ->
         holders field_name value doc = [] ->
         add_value_to_metadata (Some doc) field_name value xsd_root
         = (Some doc', Ok tt) ->
         texts field_name doc'
         = filter nonblank_text (Some value :: texts field_name doc)).
Proof.
  intros Hs Hp.
  pose proof (produced_well_laid xsd_root names doc Hs Hp) as Hw.
  assert (Hnd : NoDup names) by (destruct Hs as (? & _ & _ & _ & H); exact H).
  split; [apply Hw|]. split; [|split].
  - unfold in_sequence_order. apply FOP_of_map with (g := tag)
      (R := fun s t => forall p q,
                find_position_for_new_element s xsd_root = Some p ->
                find_position_for_new_element t xsd_root = Some q -> p <= q).
    apply FOP_impl_in
      with (2 := layout_ordered names names _ 0 Hnd (incl_refl _) (proj2 Hw)).
    intros s t _ _ H p q.
    rewrite !(sequence_schema_position xsd_root names) by exact Hs.
    apply H.
  - intros name Hin. apply well_laid_contiguous with (names := names);
      assumption.
  - intros field_name value doc' Hin Hmulti Hnone Hcall.
    destruct (add_value_multi_inv _ _ _ _ _ Hmulti Hcall)
      as [(_ & p & Hpos & R)|(Hsome & _)]; [|contradiction].
    rewrite (flat_find_insert_position xsd_root names doc field_name Hs
               (proj1 Hw)) in Hpos.
    injection Hpos as <-.
    rewrite flat_remove_empty_elements in R
      by apply (well_laid_insert names doc field_name value Hnd Hw).
    injection R as <-.
    rewrite texts_prune
      by apply (well_laid_insert names doc field_name value Hnd Hw).
    rewrite texts_insert by assumption. reflexivity.
Qed.

Lemma sequence_schema_sample :
  sequence_schema Sample.schemaA ["Email"; "Format"].
Proof.
  exists (Sample.xs "sequence" [] [Sample.Email; Sample.Format]).
  split; [reflexivity|]. split; [reflexivity|]. split; [reflexivity|].
  constructor.
  - intros [H|[]]. discriminate.
  - constructor; [intros [] | constructor].
Defined.

Lemma produced_documents_follow_sequence_witness :
  in_sequence_order Sample.schemaA
    [Sample.field "Email" "b@test.com"; Sample.field "Email" "a@test.com";
     empty_field "Format"].
Proof.
  apply (produced_documents_follow_sequence Sample.schemaA ["Email"; "Format"]
           (Sample.metadata [Sample.field "Email" "b@test.com";
                             Sample.field "Email" "a@test.com";
                             empty_field "Format"])
           sequence_schema_sample).
  apply produced_add_value
    with (doc := Sample.metadata [Sample.field "Email" "a@test.com";
                                  empty_field "Format"])
         (field_name := "Email") (value := "b@test.com") (r := Ok tt);
    [|reflexivity].
  apply produced_add_value
    with (doc := Sample.metadata [empty_field "Email"; empty_field "Format"])
         (field_name := "Email") (value := "a@test.com") (r := Ok tt);
    [|reflexivity].
  apply produced_template. reflexivity.
Defined.

(** C3, as stated, fails: in scenario A the value a@test.com is set before
    the value b@test.com, and the instance that holds b@test.com comes
    first in the document. *)
Lemma instances_are_not_in_insertion_order :
  build_metadata_template Sample.schemaA
  = Ok (Sample.metadata [empty_field "Email"; empty_field "Format"])
  /\ add_value_to_metadata
       (Some (Sample.metadata [empty_field "Email"; empty_field "Format"]))
       "Email" "a@test.com" Sample.schemaA
     = (Some (Sample.metadata [Sample.field "Email" "a@test.com";
                               empty_field "Format"]), Ok tt)
  /\ add_value_to_metadata
       (Some (Sample.metadata [Sample.field "Email" "a@test.com";
                               empty_field "Format"]))
       "Email" "b@test.com" Sample.schemaA
     = (Some (Sample.metadata [Sample.field "Email" "b@test.com";
                               Sample.field "Email" "a@test.com";
                               empty_field "Format"]), Ok tt).
Proof.
  repeat split; reflexivity.
Qed.

(** ** Limits of the ordering and of the repeated call *)

(** With a field declared outside the sequence the order of the sequence
    is lost: the merge keeps Owner in front, and the new Email instance,
    inserted at the number of Format instances, lands before Format, whose
    position in the sequence is smaller. *)
Example order_needs_sequence_schema :
  get_metadata_template_with_values
    (Sample.metadata [Sample.field "Owner" "me"; Sample.field "Format" "Phone"])
    schema_with_outside_field
  = Ok (Sample.metadata [Sample.field "Owner" "me";
                         Sample.field "Format" "Phone"])
  /\ add_value_to_metadata
       (Some (Sample.metadata [Sample.field "Owner" "me";
                               Sample.field "Format" "Phone"]))
       "Email" "a@test.com" schema_with_outside_field
     = (Some (Sample.metadata [Sample.field "Owner" "me";
                               Sample.field "Email" "a@test.com";
                               Sample.field "Format" "Phone"]), Ok tt)
  /\ find_position_for_new_element "Email" schema_with_outside_field = Some 1
  /\ find_position_for_new_element "Format" schema_with_outside_field = Some 0.
Proof.
  repeat split; reflexivity.
Qed.

(** Instances that already repeat the value are left as they are. *)
Example repeated_value_is_not_merged :
  add_value_to_metadata
    (Some (Sample.metadata [Sample.field "Email" "a@test.com";
                            Sample.field "Email" "a@test.com"]))
    "Email" "a@test.com" Sample.schemaA
  = (Some (Sample.metadata [Sample.field "Email" "a@test.com";
                            Sample.field "Email" "a@test.com"]), Ok tt).
Proof.
  reflexivity.
Qed.

(** * Further properties *)

(** ** build_metadata_template *)

(** X2.  A template that build_metadata_template returns is an element
    named metadata without text, whose children are one childless instance
    with empty text for every declaration not named metadata, in the order
    of the declarations; no instance is named metadata. *)
Theorem build_metadata_template_shape (xsd_root template : Element) :
  build_metadata_template xsd_root = Ok template ->
  tag template = "metadata"
  /\ text template = None
  /\ map (fun c => Some (tag c)) (children template)
     = declared_names (xsd_elements xsd_root)
  /\ Forall (fun c => text c = Some EmptyString /\ children c = []
                      /\ attrib c = [] /\ tag c <> "metadata")
       (children template).
Proof.
  intros Hb. apply build_metadata_template_ok in Hb.
  destruct Hb as (names & Hn & ->). simpl.
  split; [reflexivity|]. split; [reflexivity|]. split.
  - rewrite Hn, map_map. reflexivity.
  - apply Forall_forall. intros c Hc. apply in_map_iff in Hc.
    destruct Hc as (n & <- & Hin). simpl. repeat split.
    intros ->.
    assert (Hmem : In (Some "metadata") (declared_names (xsd_elements xsd_root)))
      by (rewrite Hn; apply in_map; exact Hin).
    unfold declared_names in Hmem. apply filter_In in Hmem.
    destruct Hmem as [_ Hmem]. discriminate.
Qed.

Lemma build_metadata_template_shape_witness :
  map (fun c => Some (tag c))
    (children (Sample.metadata [empty_field "Email"; empty_field "Format"]))
  = declared_names (xsd_elements Sample.schemaA).
Proof.
  apply (build_metadata_template_shape Sample.schemaA
           (Sample.metadata [empty_field "Email"; empty_field "Format"])
           eq_refl).
Defined.

(** ** Lookups in the schema *)

Lemma map_snd_iter_with_parent parent e :
  map snd (iter_with_parent parent e) = iter e.
Proof.
  revert parent. induction e as [t a x cs IH] using Element_ind'.
  intros parent. simpl. f_equal.
  generalize (mkElement t a x cs) as self. intros self.
  induction IH as [|c cs Hc Hcs IHcs]; simpl; [reflexivity|].
  rewrite map_app, Hc, IHcs. reflexivity.
Qed.

Lemma map_snd_descendants_with_parent e :
  map snd (descendants_with_parent e) = iterdescendants e.
Proof.
  unfold descendants_with_parent, iterdescendants.
  induction (children e) as [|c cs IH]; simpl; [reflexivity|].
  rewrite map_app, map_snd_iter_with_parent, IH. reflexivity.
Qed.

Lemma map_snd_filter (A B : Type) (keep : B -> bool) (l : list (A * B)) :
  map snd (filter (fun ab => keep (snd ab)) l) = filter keep (map snd l).
Proof.
  induction l as [|[a b] l IH]; simpl; [reflexivity|].
  destruct (keep b); simpl; rewrite IH; reflexivity.
Qed.

Lemma declarations_with_parent name xsd_root :
  map snd (filter (fun pe => is_named name (snd pe))
             (descendants_with_parent xsd_root))
  = filter (is_named name) (iterdescendants xsd_root).
Proof.
  rewrite map_snd_filter, map_snd_descendants_with_parent. reflexivity.
Qed.

Lemma undeclared_no_declaration name xsd_root :
  find_xsd_element name xsd_root = None ->
  filter (is_named name) (iterdescendants xsd_root) = []
  /\ filter (fun pe => is_named name (snd pe))
       (descendants_with_parent xsd_root) = [].
Proof.
  unfold find_xsd_element. intros H.
  assert (E : filter (is_named name) (iterdescendants xsd_root) = [])
    by (destruct (filter (is_named name) (iterdescendants xsd_root));
        [reflexivity | discriminate]).
  split; [exact E|].
  pose proof (declarations_with_parent name xsd_root) as D.
  rewrite E in D. apply map_eq_nil in D. exact D.
Qed.

(** X3.  A field name that the schema does not declare is single-valued
    and has no restriction: add_value_to_metadata never rejects a value
    for it; it overwrites the text of the first instance of that name, or,
    when there is none, inserts a new instance at the insert position. *)
Theorem undeclared_field_is_unrestricted
  (doc : Element) (field_name value : string) (xsd_root : Element) :
  find_xsd_element field_name xsd_root = None ->
  is_field_multi_valued field_name xsd_root = false
  /\ get_restriction_values field_name xsd_root = []
  /\ add_value_to_metadata (Some doc) field_name value xsd_root
     = match findall field_name doc with
       | _ :: _ =>
           (Some (set_text_of_first field_name (Some value) doc), Ok tt)
       | [] =>
           match find_insert_position doc field_name xsd_root with
           | Ok position =>
               (Some (insert doc position
                        (new_element field_name (Some value))), Ok tt)
           | Raise e => (Some doc, Raise e)
           end
       end.
Proof.
  intros Hnone.
  assert (Hmulti : is_field_multi_valued field_name xsd_root = false)
    by (unfold is_field_multi_valued; rewrite Hnone; reflexivity).
  assert (Hrestr : get_restriction_values field_name xsd_root = []).
  { destruct (undeclared_no_declaration field_name xsd_root Hnone) as [E1 E2].
    unfold get_restriction_values, own_simpleTypes, sibling_simpleTypes.
    rewrite E1, E2. reflexivity. }
  split; [exact Hmulti|]. split; [exact Hrestr|].
  unfold add_value_to_metadata. rewrite Hmulti, Hrestr. reflexivity.
Qed.

Lemma undeclared_field_is_unrestricted_witness :
  add_value_to_metadata
    (Some (Sample.metadata [Sample.field "Format" "Phone"]))
    "Owner" "me" Sample.schemaA
  = (Some (Sample.metadata [Sample.field "Format" "Phone";
                            Sample.field "Owner" "me"]), Ok tt).
Proof.
  apply (proj2 (proj2 (undeclared_field_is_unrestricted
                         (Sample.metadata [Sample.field "Format" "Phone"])
                         "Owner" "me" Sample.schemaA eq_refl))).
Defined.

Lemma sole_declaration_restrictions name xsd_root parent e :
  sole_declaration name xsd_root parent e ->
  findall_children (xsd "simpleType") e = [] ->
  get_restriction_values name xsd_root
  = match hd_error (findall_children (xsd "simpleType") parent) with
    | Some type_elem => enumeration_values type_elem
    | None => []
    end.
Proof.
  intros Hsole Hinline.
  pose proof (declarations_with_parent name xsd_root) as D.
  unfold sole_declaration in Hsole. rewrite Hsole in D. simpl in D.
  unfold get_restriction_values, own_simpleTypes, sibling_simpleTypes.
  rewrite <- D, Hsole. simpl. rewrite Hinline, !app_nil_r. simpl.
  reflexivity.
Qed.

(** X4.  The restrictions of a field without inline simpleType are the
    enumeration of the first simpleType child of the parent of its
    declaration, whatever the type attribute of the declaration says: two
    such fields declared under the same parent have the same restriction
    list. *)
Theorem sibling_fields_share_restrictions
  (xsd_root parent e1 e2 : Element) (name1 name2 : string) :
  sole_declaration name1 xsd_root parent e1 ->
  sole_declaration name2 xsd_root parent e2 ->
  findall_children (xsd "simpleType") e1 = [] ->
  findall_children (xsd "simpleType") e2 = [] ->
  get_restriction_values name1 xsd_root
  = match hd_error (findall_children (xsd "simpleType") parent) with
    | Some type_elem => enumeration_values type_elem
    | None => []
    end
  /\ get_restriction_values name2 xsd_root
     = get_restriction_values name1 xsd_root.
Proof.
  intros H1 H2 I1 I2.
  rewrite (sole_declaration_restrictions name1 xsd_root parent e1 H1 I1).
  rewrite (sole_declaration_restrictions name2 xsd_root parent e2 H2 I2).
  split; reflexivity.
Qed.

Lemma sibling_fields_share_restrictions_witness :
  get_restriction_values "Size" schema_named_types
  = get_restriction_values "Colour" schema_named_types.
Proof.
  apply (proj2 (sibling_fields_share_restrictions
                  schema_named_types schema_named_types
                  (Sample.xs "element"
                     [("name", "Colour"); ("type", "colourType")] [])
                  (Sample.xs "element"
                     [("name", "Size"); ("type", "sizeType")] [])
                  "Colour" "Size" eq_refl eq_refl eq_refl eq_refl)).
Defined.

(** ** find_position_for_new_element *)

Lemma position_loop_some field_name elems k p :
  position_loop field_name elems k = Some p ->
  k <= p
  /\ (exists e, nth_error elems (p - k) = Some e
                /\ get e "name" = Some field_name)
  /\ (forall q e, q < p - k -> nth_error elems q = Some e ->
                  get e "name" <> Some field_name).
Proof.
  revert k. induction elems as [|x rest IH]; intros k H; simpl in H.
  - discriminate.
  - destruct (opt_eqb_spec (get x "name") (Some field_name)) as [E|E].
    + injection H as <-. split; [lia|]. rewrite Nat.sub_diag. split.
      * exists x. auto.
      * intros q e Hq. lia.
    + apply IH in H. destruct H as (Hle & (e & Hnth & Hname) & Hbefore).
      split; [lia|].
      replace (p - k) with (S (p - S k)) by lia. split.
      * exists e. auto.
      * intros [|q] e' Hq Hnth'; simpl in Hnth'.
        -- injection Hnth' as <-. exact E.
        -- apply (Hbefore q e'); [lia | exact Hnth'].
Qed.

Lemma position_loop_none field_name elems k :
  position_loop field_name elems k = None
  <-> ~ In (Some field_name) (map (fun e => get e "name") elems).
Proof.
  revert k. induction elems as [|x rest IH]; intros k; simpl.
  - tauto.
  - destruct (opt_eqb_spec (get x "name") (Some field_name)) as [E|E].
    + split; [discriminate|]. intros H. exfalso. apply H. now left.
    + rewrite IH. split.
      * intros H [H1|H1]; [exact (E H1) | exact (H H1)].
      * intros H H1. apply H. now right.
Qed.

(** X5.  find_position_for_new_element returns the index of the first
    field declaration of that name among the element children of the first
    sequence of the schema, and None exactly when the schema has no
    sequence or the sequence has no field of that name. *)
Theorem find_position_for_new_element_spec
  (field_name : string) (xsd_root : Element) :
  (forall p,
      find_position_for_new_element field_name xsd_root = Some p ->
      exists sequence,
        first_sequence xsd_root = Some sequence
        /\ (exists e, nth_error (sequence_fields sequence) p = Some e
                      /\ get e "name" = Some field_name)
        /\ (forall q e, q < p ->
                        nth_error (sequence_fields sequence) q = Some e ->
                        get e "name" <> Some field_name))
  /\ (find_position_for_new_element field_name xsd_root = None
      <-> first_sequence xsd_root = None
          \/ exists sequence,
               first_sequence xsd_root = Some sequence
               /\ ~ In (Some field_name)
                      (map (fun e => get e "name")
                         (sequence_fields sequence))).
Proof.
  unfold find_position_for_new_element.
  destruct (first_sequence xsd_root) as [sequence|].
  - split.
    + intros p H. apply position_loop_some in H.
      rewrite Nat.sub_0_r in H. destruct H as (_ & H1 & H2).
      exists sequence. auto.
    + rewrite position_loop_none. split.
      * intros H. right. exists sequence. auto.
      * intros [H|(sequence' & E & H)]; [discriminate|].
        injection E as <-. exact H.
  - split; [discriminate|]. split; auto.
Qed.

(** ** find_insert_position *)

Lemma index_from_before k field_name names :
  In field_name names ->
  index_from k field_name names = Some (k + length (before field_name names)).
Proof.
  revert k. induction names as [|n rest IH]; intros k Hin; [destruct Hin|].
  simpl. destruct (String.eqb_spec n field_name) as [E|E].
  - simpl. f_equal. lia.
  - destruct Hin as [Hin|Hin]; [contradiction|].
    rewrite (IH (S k) Hin). simpl. f_equal. lia.
Qed.

Lemma list_sum_ones (l : list string) (count : string -> nat) :
  (forall n, In n l -> count n = 1) -> list_sum (map count l) = length l.
Proof.
  induction l as [|n l IH]; intros H; [reflexivity|].
  cbn [map length].
  change (list_sum (count n :: map count l))
    with (count n + list_sum (map count l)).
  rewrite (H n) by now left. rewrite IH; [reflexivity|].
  intros m Hm. apply H. now right.
Qed.

(** X6.  For a schema whose field declarations are the fields of its
    sequence, with distinct names: in the fresh template the insert
    position of a field of the sequence is its sequence position. *)
Theorem template_insert_position_is_sequence_position
  (xsd_root template : Element) (names : list string) (field_name : string) :
  sequence_schema xsd_root names ->
  build_metadata_template xsd_root = Ok template ->
  In field_name names ->
  exists p,
    find_position_for_new_element field_name xsd_root = Some p
    /\ find_insert_position template field_name xsd_root = Ok p.
Proof.
  intros Hs Hb Hin.
  pose proof (well_laid_template xsd_root names template Hs Hb) as [Hflat _].
  assert (Hnd : NoDup names) by (destruct Hs as (? & _ & _ & _ & H); exact H).
  assert (Htags : map tag (children template) = names).
  { destruct Hs as (sequence & _ & _ & Hdecl & _).
    apply build_metadata_template_ok in Hb. destruct Hb as (names' & Hn & ->).
    rewrite Hdecl in Hn. apply map_Some_inj in Hn. subst names'.
    simpl. rewrite map_map. apply map_id. }
  exists (length (before field_name names)). split.
  - rewrite (sequence_schema_position xsd_root names field_name Hs).
    apply (index_from_before 0 field_name names Hin).
  - rewrite (flat_find_insert_position xsd_root names template field_name
               Hs Hflat).
    rewrite Htags. f_equal. apply list_sum_ones.
    intros n Hn. apply before_incl in Hn.
    apply NoDup_count_occ'; assumption.
Qed.

Lemma template_insert_position_is_sequence_position_witness :
  exists p,
    find_position_for_new_element "Format" Sample.schemaA = Some p
    /\ find_insert_position
         (Sample.metadata [empty_field "Email"; empty_field "Format"])
         "Format" Sample.schemaA = Ok p.
Proof.
  apply (template_insert_position_is_sequence_position
           Sample.schemaA
           (Sample.metadata [empty_field "Email"; empty_field "Format"])
           ["Email"; "Format"] "Format" sequence_schema_sample eq_refl).
  right. left. reflexivity.
Defined.

Lemma preceding_absent field_name elems :
  ~ In (Some field_name) (map (fun e => get e "name") elems) ->
  preceding field_name elems = map (fun e => fstr (get e "name")) elems.
Proof.
  induction elems as [|x rest IH]; intros H; [reflexivity|].
  simpl. destruct (opt_eqb_spec (get x "name") (Some field_name)) as [E|E].
  - exfalso. apply H. now left.
  - f_equal. apply IH. intros Hin. apply H. now right.
Qed.

(** X7.  When the schema has a sequence and the field is not declared in
    it, the insert position is the sum of the numbers of instances of all
    the fields of the sequence; when these have distinct names it is the
    number of elements of the document that are instances of a field of
    the sequence, so that in a flat document the new instance goes in
    after as many children. *)
Theorem insert_position_outside_sequence
  (doc : Element) (field_name : string) (xsd_root sequence : Element) :
  first_sequence xsd_root = Some sequence ->
  ~ In (Some field_name)
       (map (fun e => get e "name") (sequence_fields sequence)) ->
  find_insert_position doc field_name xsd_root
  = Ok (list_sum (map (fun n => length (findall n doc))
                    (map (fun e => fstr (get e "name"))
                       (sequence_fields sequence))))
  /\ (NoDup (map (fun e => fstr (get e "name")) (sequence_fields sequence)) ->
      find_insert_position doc field_name xsd_root
      = Ok (length (filter (tag_in (map (fun e => fstr (get e "name"))
                                      (sequence_fields sequence)))
                      (iterdescendants doc)))).
Proof.
  intros Hseq Habsent.
  assert (E : find_insert_position doc field_name xsd_root
              = Ok (list_sum (map (fun n => length (findall n doc))
                                (map (fun e => fstr (get e "name"))
                                   (sequence_fields sequence))))).
  { unfold find_insert_position. rewrite Hseq, insert_loop_sum.
    fold (sequence_fields sequence).
    rewrite (preceding_absent field_name _ Habsent). reflexivity. }
  split; [exact E|].
  intros Hnd. rewrite E. f_equal. unfold findall.
  apply count_by_name. exact Hnd.
Qed.

Lemma insert_position_outside_sequence_witness :
  find_insert_position
    (Sample.metadata [Sample.field "Email" "a@test.com";
                      Sample.field "Owner" "me";
                      Sample.field "Format" "Phone"])
    "Title" Sample.schemaA
  = Ok 2.
Proof.
  refine (proj1 (insert_position_outside_sequence
                   (Sample.metadata [Sample.field "Email" "a@test.com";
                                     Sample.field "Owner" "me";
                                     Sample.field "Format" "Phone"])
                   "Title" Sample.schemaA
                   (Sample.xs "sequence" [] [Sample.Email; Sample.Format])
                   eq_refl _)).
  simpl. intros [H|[H|[]]]; discriminate.
Defined.

Lemma filter_length_le (A : Type) (keep : A -> bool) (l : list A) :
  length (filter keep l) <= length l.
Proof.
  induction l as [|a l IH]; simpl; [lia|].
  destruct (keep a); simpl; lia.
Qed.

(** X8.  When the fields that precede the target in the sequence have
    distinct names, the insert position is at most the number of elements
    below the root of the document; in a flat document it is at most the
    number of children, so the insertion never runs past the end. *)
Theorem find_insert_position_bound
  (doc : Element) (field_name : string) (xsd_root sequence : Element) :
  first_sequence xsd_root = Some sequence ->
  NoDup (preceding field_name (sequence_fields sequence)) ->
  exists p,
    find_insert_position doc field_name xsd_root = Ok p
    /\ p <= length (iterdescendants doc)
    /\ (flat doc -> p <= length (children doc)).
Proof.
  intros Hseq Hnd.
  exists (length (filter (tag_in (preceding field_name (sequence_fields sequence)))
                    (iterdescendants doc))).
  split; [|split].
  - unfold find_insert_position. rewrite Hseq, insert_loop_sum.
    fold (sequence_fields sequence). simpl. f_equal.
    unfold findall. apply count_by_name. exact Hnd.
  - apply filter_length_le.
  - intros Hflat. unfold iterdescendants.
    rewrite (flat_map_iter_leaves (children doc) Hflat).
    apply filter_length_le.
Qed.

Lemma find_insert_position_bound_witness :
  exists p,
    find_insert_position
      (Sample.metadata [Sample.field "Email" "a@test.com"])
      "Format" Sample.schemaA = Ok p
    /\ p <= 1.
Proof.
  destruct (find_insert_position_bound
              (Sample.metadata [Sample.field "Email" "a@test.com"])
              "Format" Sample.schemaA
              (Sample.xs "sequence" [] [Sample.Email; Sample.Format])
              eq_refl) as (p & Hp & Hle & _).
  - vm_compute. constructor; [intros [] | constructor].
  - exists p. split; [exact Hp | exact Hle].
Defined.

(** ** remove_empty_elements *)

Lemma no_deep_blank_spec field_name c :
  no_deep_blank field_name c = true
  <-> (forall d, In d (findall field_name c) -> is_blank (text d) = false).
Proof.
  unfold no_deep_blank. rewrite negb_true_iff. split.
  - intros H d Hd. destruct (is_blank (text d)) eqn:B; [|reflexivity].
    assert (existsb (fun d => is_blank (text d)) (findall field_name c) = true)
      by (apply existsb_exists; exists d; auto).
    congruence.
  - intros H.
    destruct (existsb (fun d => is_blank (text d)) (findall field_name c))
      eqn:Ex; [|reflexivity].
    apply existsb_exists in Ex. destruct Ex as (d & Hd & B).
    rewrite (H d Hd) in B. discriminate.
Qed.

Lemma remove_loop_raises field_name cs cs' e :
  remove_loop field_name cs = (cs', Raise e) -> e = ValueError NotAChild.
Proof.
  revert cs'. induction cs as [|c rest IH]; intros cs' H; simpl in H.
  - discriminate.
  - destruct (existsb (fun d => is_blank (text d)) (findall field_name c)).
    + congruence.
    + destruct (remove_loop field_name rest) as [rest' r].
      injection H as _ ->. eapply IH. reflexivity.
Qed.

(** X9.  remove_empty_elements returns exactly when no blank instance of
    the field lies below a child of the parent, that is, when every blank
    instance is itself a child; otherwise it raises, and the exception is
    the ValueError of lxml for an element that is not a child. *)
Theorem remove_empty_elements_returns_iff
  (parent : Element) (field_name : string) :
  ((exists parent',
       remove_empty_elements parent field_name = (parent', Ok tt))
   <-> (forall c d, In c (children parent) -> In d (findall field_name c) ->
                    is_blank (text d) = false))
  /\ (forall parent' e,
         remove_empty_elements parent field_name = (parent', Raise e) ->
         e = ValueError NotAChild).
Proof.
  split; [split|].
  - intros (parent' & H). unfold remove_empty_elements in H.
    destruct (remove_loop field_name (children parent)) as [cs r] eqn:R.
    injection H as _ ->. apply remove_loop_ok in R. destruct R as [_ Deep].
    rewrite Forall_forall in Deep. intros c d Hc.
    apply no_deep_blank_spec. apply Deep. exact Hc.
  - intros H. unfold remove_empty_elements. rewrite remove_loop_total.
    + eexists. reflexivity.
    + apply Forall_forall. intros c Hc. apply no_deep_blank_spec.
      intros d. apply H. exact Hc.
  - intros parent' e H. unfold remove_empty_elements in H.
    destruct (remove_loop field_name (children parent)) as [cs r] eqn:R.
    injection H as _ ->. eapply remove_loop_raises. exact R.
Qed.

Lemma remove_loop_keeps field_name cs cs' r :
  remove_loop field_name cs = (cs', r) ->
  filter (survives field_name) cs' = filter (survives field_name) cs.
Proof.
  revert cs' r. induction cs as [|c rest IH]; intros cs' r H; simpl in H.
  - injection H as <- _. reflexivity.
  - assert (K : filter (survives field_name)
                  (if has_tag field_name c && is_blank (text c)
                   then [] else [c])
                = filter (survives field_name) [c]).
    { unfold survives.
      destruct (has_tag field_name c && is_blank (text c)) eqn:B; simpl;
        rewrite B; reflexivity. }
    destruct (existsb (fun d => is_blank (text d)) (findall field_name c)).
    + injection H as <- _. change (c :: rest) with ([c] ++ rest).
      rewrite !filter_app, K. reflexivity.
    + destruct (remove_loop field_name rest) as [rest' r'] eqn:R.
      injection H as <- _. change (c :: rest) with ([c] ++ rest).
      rewrite !filter_app, K.
      rewrite (IH rest' r' eq_refl). reflexivity.
Qed.

(** X10.  Whether it returns or raises, remove_empty_elements leaves the
    tag, the attributes and the text of the parent alone and removes
    nothing but blank instances of the field: the children that are not
    blank instances of the field are the same, in the same order, after the
    call; when it returns, they are all the children that are left. *)
Theorem remove_empty_elements_removes_only_blank_instances
  (parent parent' : Element) (field_name : string) (r : result unit) :
  remove_empty_elements parent field_name = (parent', r) ->
  tag parent' = tag parent
  /\ attrib parent' = attrib parent
  /\ text parent' = text parent
  /\ filter (survives field_name) (children parent')
     = filter (survives field_name) (children parent)
  /\ (r = Ok tt ->
      children parent' = filter (survives field_name) (children parent)).
Proof.
  unfold remove_empty_elements.
  destruct (remove_loop field_name (children parent)) as [cs r'] eqn:R.
  intros H. injection H as <- <-. simpl.
  repeat split.
  - eapply remove_loop_keeps. exact R.
  - intros ->. apply remove_loop_ok in R. apply R.
Qed.

Lemma remove_empty_elements_removes_only_blank_instances_witness :
  filter (survives "Email")
    (children (Sample.metadata [Sample.field "Email" "a@test.com";
                                Sample.field "Format" EmptyString]))
  = filter (survives "Email")
      (children (Sample.metadata [Sample.field "Email" "a@test.com";
                                  empty_field "Email";
                                  Sample.field "Format" EmptyString])).
Proof.
  exact (proj1 (proj2 (proj2 (proj2
           (remove_empty_elements_removes_only_blank_instances
              (Sample.metadata [Sample.field "Email" "a@test.com";
                                empty_field "Email";
                                Sample.field "Format" EmptyString])
              (Sample.metadata [Sample.field "Email" "a@test.com";
                                Sample.field "Format" EmptyString])
              "Email" (Ok tt) eq_refl))))).
Defined.

(** X11.  remove_empty_elements is idempotent: after a call that returned,
    a second call for the same field returns and changes nothing. *)
Theorem remove_empty_elements_idempotent
  (parent parent' : Element) (field_name : string) :
  remove_empty_elements parent field_name = (parent', Ok tt) ->
  remove_empty_elements parent' field_name = (parent', Ok tt).
Proof.
  apply prune_idempotent.
Qed.

Lemma remove_empty_elements_idempotent_witness :
  remove_empty_elements
    (Sample.metadata [Sample.field "Email" "a@test.com";
                      Sample.field "Format" EmptyString]) "Email"
  = (Sample.metadata [Sample.field "Email" "a@test.com";
                      Sample.field "Format" EmptyString], Ok tt).
Proof.
  apply (remove_empty_elements_idempotent
           (Sample.metadata [Sample.field "Email" "a@test.com";
                             empty_field "Email";
                             Sample.field "Format" EmptyString])
           (Sample.metadata [Sample.field "Email" "a@test.com";
                             Sample.field "Format" EmptyString])
           "Email" eq_refl).
Defined.

(** ** add_value_to_metadata *)

Lemma flat_insert doc position name t :
  flat doc -> flat (insert doc position (new_element name t)).
Proof.
  unfold flat, insert. simpl. intros H.
  rewrite <- (firstn_skipn position (children doc)) in H.
  apply Forall_app in H. destruct H as [H1 H2].
  apply Forall_app. split; [exact H1|].
  constructor; [reflexivity | exact H2].
Qed.

Lemma flat_prune field_name doc : flat doc -> flat (prune field_name doc).
Proof.
  unfold flat, prune. simpl. intros H. apply Forall_forall. intros c Hc.
  apply filter_In in Hc. rewrite Forall_forall in H. apply H. apply Hc.
Qed.

Lemma restriction_check_fails field_name value xsd_root :
  negb (Nat.eqb (length (get_restriction_values field_name xsd_root)) 0)
  && negb (existsb (opt_eqb (Some value))
             (get_restriction_values field_name xsd_root)) = true ->
  ~ (get_restriction_values field_name xsd_root = []
     \/ In (Some value) (get_restriction_values field_name xsd_root)).
Proof.
  intros H [E|Hin].
  - rewrite E in H. discriminate.
  - apply existsb_opt_eqb in Hin. rewrite Hin in H.
    rewrite andb_false_r in H. discriminate.
Qed.

(** X12.  On a flat document and with a schema that has a sequence,
    add_value_to_metadata returns exactly when the value passes the
    restriction check; when it raises, the exception is the ValueError of
    that check and the document is unchanged; and the document after the
    call is flat again. *)
Theorem add_value_on_flat_document
  (doc : Element) (field_name value : string) (xsd_root : Element) :
  flat doc ->
  first_sequence xsd_root <> None ->
  exists doc' r,
    add_value_to_metadata (Some doc) field_name value xsd_root
    = (Some doc', r)
    /\ flat doc'
    /\ (r = Ok tt
        <-> get_restriction_values field_name xsd_root = []
            \/ In (Some value) (get_restriction_values field_name xsd_root))
    /\ (r <> Ok tt -> r = Raise (ValueError ValueNotAllowed) /\ doc' = doc).
Proof.
  intros Hflat Hseq. unfold add_value_to_metadata, find_insert_position.
  destruct (first_sequence xsd_root) as [sequence|]; [|congruence].
  destruct (negb (Nat.eqb (length (get_restriction_values field_name xsd_root)) 0)
            && negb (existsb (opt_eqb (Some value))
                       (get_restriction_values field_name xsd_root))) eqn:C.
  - apply restriction_check_fails in C.
    exists doc, (Raise (ValueError ValueNotAllowed)).
    split; [reflexivity|]. split; [exact Hflat|]. split.
    + split; [discriminate | intros H; contradiction].
    + intros _. split; reflexivity.
  - assert (Hpass : get_restriction_values field_name xsd_root = []
                    \/ In (Some value)
                         (get_restriction_values field_name xsd_root)).
    { apply andb_false_iff in C. destruct C as [C|C].
      - left. apply negb_false_iff in C. apply length_eqb_nil in C. exact C.
      - right. apply negb_false_iff in C. apply existsb_opt_eqb in C.
        exact C. }
    set (p := insert_loop doc field_name
                (findall_children (xsd "element") sequence) 0).
    destruct (is_field_multi_valued field_name xsd_root).
    + destruct (negb (existsb (fun elem => opt_eqb (text elem) (Some value))
                        (findall field_name doc))).
      * rewrite flat_remove_empty_elements by (apply flat_insert; exact Hflat).
        eexists _, (Ok tt). split; [reflexivity|].
        split; [apply flat_prune, flat_insert; exact Hflat|].
        split; [tauto | congruence].
      * rewrite flat_remove_empty_elements by exact Hflat.
        eexists _, (Ok tt). split; [reflexivity|].
        split; [apply flat_prune; exact Hflat|].
        split; [tauto | congruence].
    + destruct (findall field_name doc).
      * eexists _, (Ok tt). split; [reflexivity|].
        split; [apply flat_insert; exact Hflat|].
        split; [tauto | congruence].
      * eexists _, (Ok tt). split; [reflexivity|].
        split; [apply flat_set_text_of_first; exact Hflat|].
        split; [tauto | congruence].
Qed.

Lemma add_value_on_flat_document_witness :
  exists doc' r,
    add_value_to_metadata
      (Some (Sample.metadata [empty_field "Email"; empty_field "Format"]))
      "Format" "Phone" Sample.schemaA
    = (Some doc', r)
    /\ flat doc'.
Proof.
  destruct (add_value_on_flat_document
              (Sample.metadata [empty_field "Email"; empty_field "Format"])
              "Format" "Phone" Sample.schemaA)
    as (doc' & r & Hcall & Hflat & _).
  - repeat constructor.
  - discriminate.
  - exists doc', r. split; [exact Hcall | exact Hflat].
Defined.

Lemma tags_set_text_of_first name t doc :
  map tag (children (set_text_of_first name t doc)) = map tag (children doc).
Proof.
  unfold set_text_of_first.
  pose proof (assigns_list name t (children doc)) as [LS _].
  { apply Forall_forall. intros c _. apply set_text_in_assigns. }
  destruct (update_first_of (set_text_in name t) (children doc)) as [cs|];
    [|reflexivity].
  destruct (LS cs eq_refl) as (Htags & _). exact Htags.
Qed.

Lemma findall_nonempty_texts name doc :
  findall name doc <> [] -> texts name doc <> [].
Proof.
  unfold texts. destruct (findall name doc); simpl; congruence.
Qed.

(** X13.  For a single-valued field that has an instance, a call of
    add_value_to_metadata with a value that passes the restriction check
    returns, replaces the text of the first instance of the field by the
    value and changes nothing else: the other instances of the field, the
    texts of every other field and the tags of the children of the root
    are as before. *)
Theorem add_value_overwrites_first_instance
  (doc : Element) (field_name value : string) (xsd_root : Element) :
  is_field_multi_valued field_name xsd_root = false ->
  get_restriction_values field_name xsd_root = []
  \/ In (Some value) (get_restriction_values field_name xsd_root) ->
  findall field_name doc <> [] ->
  exists doc',
    add_value_to_metadata (Some doc) field_name value xsd_root
    = (Some doc', Ok tt)
    /\ texts field_name doc' = Some value :: tl (texts field_name doc)
    /\ (forall name, name <> field_name -> texts name doc' = texts name doc)
    /\ map tag (children doc') = map tag (children doc).
Proof.
  intros Hsingle Hpass Hsome.
  exists (set_text_of_first field_name (Some value) doc). split; [|split; [|split]].
  - unfold add_value_to_metadata.
    rewrite Hsingle, (restriction_check_passes field_name value xsd_root Hpass).
    destruct (findall field_name doc); [congruence | reflexivity].
  - apply texts_set_text_of_first_same. apply findall_nonempty_texts.
    exact Hsome.
  - intros name Hname. apply texts_set_text_of_first_other. exact Hname.
  - apply tags_set_text_of_first.
Qed.

Lemma add_value_overwrites_first_instance_witness :
  exists doc',
    add_value_to_metadata
      (Some (Sample.metadata [Sample.field "Email" "a@test.com";
                              Sample.field "Format" "Phone"]))
      "Format" "Go-Pro camera" Sample.schemaA
    = (Some doc', Ok tt)
    /\ texts "Format" doc' = [Some "Go-Pro camera"]
    /\ texts "Email" doc' = [Some "a@test.com"].
Proof.
  destruct (add_value_overwrites_first_instance
              (Sample.metadata [Sample.field "Email" "a@test.com";
                                Sample.field "Format" "Phone"])
              "Format" "Go-Pro camera" Sample.schemaA)
    as (doc' & Hcall & Hown & Hother & _).
  - reflexivity.
  - right. left. reflexivity.
  - discriminate.
  - exists doc'. split; [exact Hcall|]. split; [exact Hown|].
    apply Hother. discriminate.
Defined.

Section SetTextTwice.
Variable m : string.

Lemma reassigns_list cs :
  Forall (reassigns m) cs ->
  forall t1 t2,
    (update_first_of (set_text_in m t1) cs = None ->
     update_first_of (set_text_in m t2) cs = None)
    /\ (forall cs1, update_first_of (set_text_in m t1) cs = Some cs1 ->
                    update_first_of (set_text_in m t2) cs1
                    = update_first_of (set_text_in m t2) cs).
Proof.
  induction 1 as [|c cs Hc Hcs IH]; intros t1 t2; simpl.
  - split; [reflexivity | discriminate].
  - destruct (IH t1 t2) as [IHN IHS].
    destruct (set_text_in m t1 c) as [c1|] eqn:U1.
    + split; [discriminate|].
      intros cs1 E. injection E as <-. simpl.
      rewrite (proj2 (Hc t1 t2) c1 U1).
      destruct (set_text_in m t2 c) as [c2|] eqn:U2; [reflexivity|].
      rewrite (proj1 (Hc t2 t1) U2) in U1. discriminate.
    + rewrite (proj1 (Hc t1 t2) U1).
      destruct (update_first_of (set_text_in m t1) cs) as [r1|] eqn:R1.
      * split; [discriminate|].
        intros cs1 E. injection E as <-. simpl.
        rewrite (proj1 (Hc t1 t2) U1), (IHS r1 eq_refl). reflexivity.
      * split; [|discriminate].
        intros _. rewrite (IHN eq_refl). reflexivity.
Qed.

Lemma set_text_in_reassigns e : reassigns m e.
Proof.
  induction e as [tg a x cs IH] using Element_ind'.
  intros t1 t2. pose proof (reassigns_list cs IH t1 t2) as [LN LS].
  cbn [set_text_in children]. rewrite has_tag_mk.
  destruct (String.eqb tg m) eqn:T.
  - split; [discriminate|].
    intros e1 E. injection E as <-. unfold set_text.
    cbn [tag attrib text children]. cbn [set_text_in children].
    rewrite has_tag_mk, T. reflexivity.
  - destruct (update_first_of (set_text_in m t1) cs) as [cs1|] eqn:U.
    + split; [discriminate|].
      intros e1 E. injection E as <-. unfold set_children.
      cbn [tag attrib text children]. cbn [set_text_in children].
      rewrite has_tag_mk, T, (LS cs1 eq_refl). reflexivity.
    + split; [|discriminate].
      intros _. rewrite (LN eq_refl). reflexivity.
Qed.

Lemma set_text_of_first_twice t1 t2 doc :
  set_text_of_first m t2 (set_text_of_first m t1 doc)
  = set_text_of_first m t2 doc.
Proof.
  assert (Hall : Forall (reassigns m) (children doc))
    by (apply Forall_forall; intros c _; apply set_text_in_reassigns).
  pose proof (reassigns_list (children doc) Hall t1 t2) as [LN LS].
  pose proof (reassigns_list (children doc) Hall t2 t1) as [LN' _].
  unfold set_text_of_first at 2.
  destruct (update_first_of (set_text_in m t1) (children doc)) as [cs1|] eqn:U1.
  - unfold set_text_of_first. cbn [children set_children].
    rewrite (LS cs1 eq_refl).
    destruct (update_first_of (set_text_in m t2) (children doc)) as [cs2|] eqn:U2.
    + reflexivity.
    + discriminate (LN' eq_refl).
  - reflexivity.
Qed.
End SetTextTwice.

Lemma update_first_of_skip (A : Type) (upd : A -> option A)
  (l1 l2 : list A) (a a' : A) :
  Forall (fun c => upd c = None) l1 -> upd a = Some a' ->
  update_first_of upd (l1 ++ a :: l2) = Some (l1 ++ a' :: l2).
Proof.
  intros H Ha. induction H as [|c l1 Hc Hl1 IH]; simpl.
  - rewrite Ha. reflexivity.
  - rewrite Hc, IH. reflexivity.
Qed.

Lemma set_text_in_absent name t c :
  has_tag name c = false -> findall name c = [] ->
  set_text_in name t c = None.
Proof.
  intros Htag Hnone.
  destruct (set_text_in name t c) as [c'|] eqn:U; [|reflexivity].
  destruct (set_text_in_assigns name t c) as [HS _].
  destruct (HS c' U) as (_ & (x & r & Hx & _) & _).
  unfold texts_in in Hx. rewrite filter_iter_cons, Htag, Hnone in Hx.
  discriminate.
Qed.

Lemma set_text_of_inserted doc field_name position t1 t :
  findall field_name doc = [] ->
  set_text_of_first field_name t
    (insert doc position (new_element field_name t1))
  = insert doc position (new_element field_name t).
Proof.
  intros Hnone. apply findall_nil_children in Hnone.
  unfold set_text_of_first, insert. cbn [children set_children].
  rewrite (update_first_of_skip _ _ _ _ _ (new_element field_name t)).
  - reflexivity.
  - rewrite <- (firstn_skipn position (children doc)) in Hnone.
    apply Forall_app in Hnone. destruct Hnone as [H1 _].
    eapply Forall_impl; [|exact H1].
    intros c [Htag Hfind]. apply set_text_in_absent; assumption.
  - unfold new_element. cbn [set_text_in]. rewrite has_tag_mk.
    rewrite String.eqb_refl. reflexivity.
Qed.

Lemma findall_insert_nonempty doc field_name position t :
  findall field_name (insert doc position (new_element field_name t)) <> [].
Proof.
  intros H. apply findall_nil_children in H.
  unfold insert in H. cbn [children set_children] in H.
  apply Forall_app in H. destruct H as [_ H].
  inversion H as [|? ? [Htag _] _]; subst.
  unfold new_element in Htag. rewrite has_tag_mk, String.eqb_refl in Htag.
  discriminate.
Qed.

(** X14.  For a single-valued field the last value wins: when a call of
    add_value_to_metadata has returned, a second call for the same field,
    with a value that passes the restriction check, returns the document
    that the second call alone would have given. *)
Theorem add_value_single_valued_last_wins
  (doc doc1 : Element) (field_name value1 value2 : string)
  (xsd_root : Element) :
  is_field_multi_valued field_name xsd_root = false ->
  get_restriction_values field_name xsd_root = []
  \/ In (Some value2) (get_restriction_values field_name xsd_root) ->
  add_value_to_metadata (Some doc) field_name value1 xsd_root
  = (Some doc1, Ok tt) ->
  add_value_to_metadata (Some doc1) field_name value2 xsd_root
  = add_value_to_metadata (Some doc) field_name value2 xsd_root
  /\ exists doc2,
      add_value_to_metadata (Some doc) field_name value2 xsd_root
      = (Some doc2, Ok tt).
Proof.
  intros Hsingle Hpass Hcall. unfold add_value_to_metadata in *.
  rewrite Hsingle in *.
  rewrite (restriction_check_passes field_name value2 xsd_root Hpass).
  destruct (negb (Nat.eqb (length (get_restriction_values field_name xsd_root)) 0)
            && negb (existsb (opt_eqb (Some value1))
                       (get_restriction_values field_name xsd_root)));
    [discriminate|].
  destruct (findall field_name doc) as [|x l] eqn:F.
  - destruct (find_insert_position doc field_name xsd_root) as [p|e];
      [|discriminate].
    injection Hcall as <-.
    pose proof (findall_insert_nonempty doc field_name p (Some value1)) as Hne.
    destruct (findall field_name
                (insert doc p (new_element field_name (Some value1))));
      [congruence|].
    rewrite (set_text_of_inserted doc field_name p (Some value1) (Some value2) F).
    split; [reflexivity | eexists; reflexivity].
  - injection Hcall as <-.
    assert (Hne : findall field_name
                    (set_text_of_first field_name (Some value1) doc) <> []).
    { intros E.
      assert (T : texts field_name
                    (set_text_of_first field_name (Some value1) doc)
                  = Some value1 :: tl (texts field_name doc)).
      { apply texts_set_text_of_first_same. unfold texts. rewrite F.
        discriminate. }
      unfold texts at 1 in T. rewrite E in T. discriminate. }
    destruct (findall field_name
                (set_text_of_first field_name (Some value1) doc));
      [congruence|].
    rewrite set_text_of_first_twice.
    split; [reflexivity | eexists; reflexivity].
Qed.

Lemma add_value_single_valued_last_wins_witness :
  add_value_to_metadata
    (Some (Sample.metadata [empty_field "Email";
                            Sample.field "Format" "Phone"]))
    "Format" "Go-Pro camera" Sample.schemaA
  = add_value_to_metadata
      (Some (Sample.metadata [empty_field "Email"; empty_field "Format"]))
      "Format" "Go-Pro camera" Sample.schemaA.
Proof.
  apply (proj1 (add_value_single_valued_last_wins
                  (Sample.metadata [empty_field "Email"; empty_field "Format"])
                  (Sample.metadata [empty_field "Email";
                                    Sample.field "Format" "Phone"])
                  "Format" "Phone" "Go-Pro camera" Sample.schemaA
                  eq_refl (or_intror (or_introl eq_refl)) eq_refl)).
Defined.

Lemma texts_insert_other doc field_name position t name :
  name <> field_name ->
  texts name (insert doc position (new_element field_name t))
  = texts name doc.
Proof.
  intros Hname. unfold texts, findall, iterdescendants, insert.
  cbn [children set_children].
  rewrite flat_map_app. cbn [flat_map iter new_element children app].
  rewrite !filter_app. cbn [filter]. rewrite has_tag_mk.
  destruct (String.eqb_spec field_name name) as [E|E]; [congruence|].
  cbn [app]. rewrite <- filter_app, <- flat_map_app, firstn_skipn.
  reflexivity.
Qed.

Lemma texts_prune_other doc field_name name :
  flat doc -> name <> field_name ->
  texts name (prune field_name doc) = texts name doc.
Proof.
  intros Hflat Hname. unfold texts.
  rewrite !flat_findall by (try apply flat_prune; exact Hflat).
  unfold prune. cbn [children set_children]. f_equal.
  clear Hflat. induction (children doc) as [|c cs IH]; [reflexivity|].
  cbn [filter]. unfold survives at 1.
  destruct (has_tag field_name c) eqn:T.
  - assert (Hn : has_tag name c = false).
    { unfold has_tag in *. apply String.eqb_eq in T.
      destruct (String.eqb_spec (tag c) name); congruence. }
    destruct (is_blank (text c)); cbn [andb negb filter]; rewrite ?Hn;
      exact IH.
  - cbn [andb negb filter]. rewrite IH. reflexivity.
Qed.

(** X15.  On a flat document add_value_to_metadata touches the instances
    of the field it is called for and no other: whether it returns or
    raises, the texts of the instances of every other field are the same
    after the call. *)
Theorem add_value_leaves_other_fields
  (doc doc' : Element) (field_name value : string) (xsd_root : Element)
  (r : result unit) (name : string) :
  flat doc ->
  name <> field_name ->
  add_value_to_metadata (Some doc) field_name value xsd_root = (Some doc', r) ->
  texts name doc' = texts name doc.
Proof.
  intros Hflat Hname Hcall. unfold add_value_to_metadata in Hcall.
  destruct (negb (Nat.eqb (length (get_restriction_values field_name xsd_root)) 0)
            && negb (existsb (opt_eqb (Some value))
                       (get_restriction_values field_name xsd_root))).
  { injection Hcall as <- _. reflexivity. }
  destruct (is_field_multi_valued field_name xsd_root).
  - destruct (negb (existsb (fun elem => opt_eqb (text elem) (Some value))
                      (findall field_name doc))).
    + destruct (find_insert_position doc field_name xsd_root) as [p|e].
      * rewrite flat_remove_empty_elements in Hcall
          by (apply flat_insert; exact Hflat).
        injection Hcall as <- _.
        rewrite texts_prune_other
          by (try apply flat_insert; assumption).
        apply texts_insert_other. exact Hname.
      * injection Hcall as <- _. reflexivity.
    + rewrite flat_remove_empty_elements in Hcall by exact Hflat.
      injection Hcall as <- _. apply texts_prune_other; assumption.
  - destruct (findall field_name doc).
    + destruct (find_insert_position doc field_name xsd_root) as [p|e].
      * injection Hcall as <- _. apply texts_insert_other. exact Hname.
      * injection Hcall as <- _. reflexivity.
    + injection Hcall as <- _. apply texts_set_text_of_first_other.
      exact Hname.
Qed.

Lemma add_value_leaves_other_fields_witness :
  texts "Format"
    (Sample.metadata [Sample.field "Email" "a@test.com";
                      Sample.field "Format" "Phone"])
  = texts "Format"
      (Sample.metadata [empty_field "Email"; Sample.field "Format" "Phone"]).
Proof.
  apply (add_value_leaves_other_fields
           (Sample.metadata [empty_field "Email";
                             Sample.field "Format" "Phone"])
           (Sample.metadata [Sample.field "Email" "a@test.com";
                             Sample.field "Format" "Phone"])
           "Email" "a@test.com" Sample.schemaA (Ok tt) "Format").
  - repeat constructor.
  - discriminate.
  - reflexivity.
Defined.

(** ** populate_default_values *)

Lemma length_texts_set_text_of_first m t doc name :
  length (texts name (set_text_of_first m t doc)) = length (texts name doc).
Proof.
  destruct (string_dec name m) as [->|Hname].
  - unfold set_text_of_first.
    pose proof (assigns_list m t (children doc)) as [LS _].
    { apply Forall_forall. intros c _. apply set_text_in_assigns. }
    destruct (update_first_of (set_text_in m t) (children doc)) as [cs|];
      [|reflexivity].
    destruct (LS cs eq_refl) as (_ & (x & r & Hx & Hr) & _).
    unfold texts, findall, iterdescendants. cbn [children set_children].
    unfold texts_in in Hx, Hr. rewrite Hx, Hr. reflexivity.
  - rewrite texts_set_text_of_first_other by exact Hname. reflexivity.
Qed.

Lemma populate_step_cases xsd_root skip_optional doc xsd_elem :
  populate_step xsd_root skip_optional doc xsd_elem = doc
  \/ exists t,
      populate_step xsd_root skip_optional doc xsd_elem
      = set_text_of_first (fstr (get xsd_elem "name")) t doc.
Proof.
  unfold populate_step.
  repeat match goal with
         | |- context [if ?b then _ else _] => destruct b
         | |- context [match find ?n ?d with _ => _ end] => destruct (find n d)
         end;
    try (left; reflexivity); right; eexists; reflexivity.
Qed.

(** X16.  populate_default_values only assigns texts: it adds and removes
    no instance.  The tags of the children of the root, in their order,
    and the number of instances of every field are the same after it. *)
Theorem populate_default_values_keeps_instances
  (doc xsd_root : Element) (skip_optional : bool) :
  map tag (children (populate_default_values doc xsd_root skip_optional))
  = map tag (children doc)
  /\ (forall name,
         length (texts name
                   (populate_default_values doc xsd_root skip_optional))
         = length (texts name doc)).
Proof.
  unfold populate_default_values. revert doc.
  induction (xsd_elements xsd_root) as [|e rest IH]; intros doc; simpl.
  - split; reflexivity.
  - destruct (IH (populate_step xsd_root skip_optional doc e)) as [IH1 IH2].
    destruct (populate_step_cases xsd_root skip_optional doc e)
      as [E|(t & E)]; rewrite E in *.
    + split; assumption.
    + split.
      * rewrite IH1. apply tags_set_text_of_first.
      * intros name. rewrite IH2. apply length_texts_set_text_of_first.
Qed.

Lemma blank_test t : negb (truthy t) || is_blank t = is_blank t.
Proof.
  destruct t as [[|c s]|]; reflexivity.
Qed.

Lemma find_none_texts name doc : find name doc = None -> texts name doc = [].
Proof.
  unfold find, texts. destruct (findall name doc); [reflexivity | discriminate].
Qed.

Lemma find_some_head name doc inst :
  find name doc = Some inst ->
  texts name doc = text inst :: tl (texts name doc).
Proof.
  unfold find, texts. destruct (findall name doc); simpl; [discriminate|].
  intros E. injection E as ->. reflexivity.
Qed.

Lemma populate_step_default xsd_root skip_optional doc xsd_elem name :
  takes_default xsd_root name = true ->
  name <> "metadata" ->
  texts name (populate_step xsd_root skip_optional doc xsd_elem)
  = if declares name xsd_elem
    then default_first xsd_root name (texts name doc)
    else texts name doc.
Proof.
  intros Hdef Hmeta. unfold declares.
  destruct (String.eqb_spec (fstr (get xsd_elem "name")) name) as [E|E].
  - unfold populate_step.
    destruct (opt_eqb_spec (get xsd_elem "name") (Some "metadata")) as [M|M].
    { rewrite M in E. simpl in E. congruence. }
    rewrite E. unfold takes_default in Hdef. rewrite Hdef.
    destruct (find name doc) as [inst|] eqn:F.
    + rewrite blank_test.
      pose proof (find_some_head name doc inst F) as Hh.
      pose proof (find_some_texts name doc inst F) as Hne.
      destruct (is_blank (text inst)) eqn:B.
      * rewrite texts_set_text_of_first_same by exact Hne.
        destruct (texts name doc) as [|t0 r0]; [congruence|].
        simpl in Hh. injection Hh as ->.
        unfold default_first, defaulted. rewrite B. reflexivity.
      * destruct (texts name doc) as [|t0 r0]; [congruence|].
        simpl in Hh. injection Hh as ->.
        unfold default_first, defaulted. rewrite B. reflexivity.
    + rewrite (find_none_texts name doc F). reflexivity.
  - destruct (populate_step_cases xsd_root skip_optional doc xsd_elem)
      as [->|(t & ->)]; [reflexivity|].
    apply texts_set_text_of_first_other. congruence.
Qed.

Lemma default_first_idempotent xsd_root name l :
  default_first xsd_root name (default_first xsd_root name l)
  = default_first xsd_root name l.
Proof.
  destruct l as [|t rest]; [reflexivity|].
  unfold default_first, defaulted.
  destruct (is_blank t) eqn:B; [|rewrite B; reflexivity].
  destruct (is_blank (first_restriction_value xsd_root name)); reflexivity.
Qed.

Lemma populate_fold_default xsd_root skip_optional name elems doc :
  takes_default xsd_root name = true ->
  name <> "metadata" ->
  texts name (fold_left (populate_step xsd_root skip_optional) elems doc)
  = if existsb (declares name) elems
    then default_first xsd_root name (texts name doc)
    else texts name doc.
Proof.
  intros Hdef Hmeta. revert doc.
  induction elems as [|e rest IH]; intros doc; [reflexivity|].
  cbn [fold_left existsb]. rewrite IH.
  rewrite (populate_step_default xsd_root skip_optional doc e name Hdef Hmeta).
  destruct (declares name e); cbn [orb].
  - destruct (existsb (declares name) rest);
      [apply default_first_idempotent | reflexivity].
  - reflexivity.
Qed.

Lemma restricted_is_declared name xsd_root :
  get_restriction_values name xsd_root <> [] ->
  existsb (declares name) (xsd_elements xsd_root) = true.
Proof.
  intros Hne.
  destruct (filter (is_named name) (iterdescendants xsd_root)) as [|e l] eqn:F.
  - exfalso. apply Hne.
    assert (Hnone : find_xsd_element name xsd_root = None)
      by (unfold find_xsd_element; rewrite F; reflexivity).
    destruct (undeclared_no_declaration name xsd_root Hnone) as [E1 E2].
    unfold get_restriction_values, own_simpleTypes, sibling_simpleTypes.
    rewrite E1, E2. reflexivity.
  - assert (Hin : In e (filter (is_named name) (iterdescendants xsd_root)))
      by (rewrite F; now left).
    apply filter_In in Hin. destruct Hin as [Hin Hnamed].
    unfold is_named in Hnamed. apply andb_true_iff in Hnamed.
    destruct Hnamed as [Htag Hname].
    apply existsb_exists. exists e. split.
    + unfold xsd_elements, findall. apply filter_In. split; assumption.
    + unfold declares. destruct (opt_eqb_spec (get e "name") (Some name)) as [E|E];
        [|discriminate].
      rewrite E. apply String.eqb_refl.
Qed.

(** X17.  For a field that has restrictions and is not multi-valued (and
    is not named metadata), populate_default_values gives the first
    restriction value to the first instance when its text is None or blank
    and keeps its text otherwise, whatever skip_optional is; the other
    instances of the field keep their texts. *)
Theorem populate_default_values_restricted_field
  (doc xsd_root : Element) (skip_optional : bool) (name : string) :
  takes_default xsd_root name = true ->
  name <> "metadata" ->
  texts name (populate_default_values doc xsd_root skip_optional)
  = default_first xsd_root name (texts name doc).
Proof.
  intros Hdef Hmeta. unfold populate_default_values.
  rewrite (populate_fold_default xsd_root skip_optional name
             (xsd_elements xsd_root) doc Hdef Hmeta).
  rewrite restricted_is_declared; [reflexivity|].
  unfold takes_default in Hdef. apply andb_true_iff in Hdef.
  destruct Hdef as [Hdef _]. intros E. rewrite E in Hdef. discriminate.
Qed.

Lemma populate_default_values_restricted_field_witness :
  texts "Format"
    (populate_default_values
       (Sample.metadata [empty_field "Email"; empty_field "Format"])
       Sample.schemaA true)
  = [Some "Go-Pro camera"].
Proof.
  apply (populate_default_values_restricted_field
           (Sample.metadata [empty_field "Email"; empty_field "Format"])
           Sample.schemaA true "Format" eq_refl).
  discriminate.
Defined.

(** ** get_metadata_template_with_values *)

(** X18.  The merge keeps every field that is not declared with minOccurs
    0, whatever the existing document holds, and such a field that has no
    usable text in the existing document is kept as the empty instance of
    the template; the instances of the result follow the order of the
    template, a part of its instances; and the result has no instance only
    when the template has none. *)
Theorem merge_keeps_required_fields
  (item_tree xsd_root template : Element) :
  build_metadata_template xsd_root = Ok template ->
  exists merged,
    get_metadata_template_with_values item_tree xsd_root = Ok merged
    /\ (forall c, In c (children template) -> optional xsd_root c = false ->
                  In (tag c) (map tag (children merged)))
    /\ (forall c, In c (children template) -> optional xsd_root c = false ->
                  truthy (item_text item_tree (tag c)) = false ->
                  In c (children merged))
    /\ (exists keep,
           map tag (children merged)
           = map tag (filter keep (children template)))
    /\ (children merged = [] -> children template = []).
Proof.
  intros Hb. eexists. split; [apply merge_result; exact Hb|].
  destruct (flat_map (merge_elem item_tree xsd_root) (children template))
    as [|k kept] eqn:F.
  - split; [|split; [|split]].
    + intros c Hc _. apply in_map. exact Hc.
    + intros c Hc _ _. exact Hc.
    + exists (fun _ => true). f_equal. symmetry. apply forallb_filter_id.
      apply forallb_forall. reflexivity.
    + intros E. exact E.
  - cbn [children set_children]. rewrite <- F. rewrite merge_children.
    assert (Hkept : forall c, In c (children template) ->
                              optional xsd_root c = false ->
                              In c (filter (fun c => negb (dropped item_tree
                                                             xsd_root c))
                                      (children template))).
    { intros c Hc Hreq. apply filter_In. split; [exact Hc|].
      unfold dropped. rewrite Hreq, andb_false_r. reflexivity. }
    split; [|split; [|split]].
    + intros c Hc Hreq. rewrite map_map. apply in_map_iff. exists c. split.
      * destruct (truthy (item_text item_tree (tag c))); reflexivity.
      * apply Hkept; assumption.
    + intros c Hc Hreq Htext. apply in_map_iff. exists c. split.
      * rewrite Htext. reflexivity.
      * apply Hkept; assumption.
    + exists (fun c => negb (dropped item_tree xsd_root c)).
      rewrite map_map. apply map_ext. intros c.
      destruct (truthy (item_text item_tree (tag c))); reflexivity.
    + rewrite <- merge_children, F. discriminate.
Qed.

Lemma merge_keeps_required_fields_witness :
  exists merged,
    get_metadata_template_with_values (Sample.metadata []) Sample.schemaA
    = Ok merged
    /\ In (empty_field "Format") (children merged).
Proof.
  destruct (merge_keeps_required_fields
              (Sample.metadata []) Sample.schemaA
              (Sample.metadata [empty_field "Email"; empty_field "Format"])
              eq_refl) as (merged & Hm & _ & Hkept & _).
  exists merged. split; [exact Hm|].
  apply (Hkept (empty_field "Format")).
  - right. left. reflexivity.
  - reflexivity.
  - reflexivity.
Defined.

Lemma reparse_leaf format level name value :
  value <> EmptyString ->
  reparse format level (new_element name (Some value))
  = new_element name (Some value).
Proof.
  intros Hv. unfold new_element. cbn [reparse text children tag attrib map].
  destruct value; [congruence | reflexivity].
Qed.

Lemma find_among_leaves (value : string -> string) root_tag root_text
  (present : list string) (name : string) :
  item_text
    (mkElement root_tag [] root_text
       (map (fun n => new_element n (Some (value n))) present)) name
  = if existsb (String.eqb name) present then Some (value name) else None.
Proof.
  unfold item_text, find, findall, iterdescendants. cbn [children].
  induction present as [|n present IH]; [reflexivity|].
  cbn [map flat_map iter new_element children app filter existsb].
  rewrite has_tag_mk. rewrite (String.eqb_sym name n).
  destruct (String.eqb_spec n name) as [E|E].
  - subst n. reflexivity.
  - exact IH.
Qed.

Lemma existsb_filter_keep (keep : string -> bool) names name :
  In name names ->
  existsb (String.eqb name) (filter keep names) = keep name.
Proof.
  intros Hin. destruct (keep name) eqn:K.
  - apply existsb_exists. exists name. split; [|apply String.eqb_refl].
    apply filter_In. auto.
  - destruct (existsb (String.eqb name) (filter keep names)) eqn:Ex;
      [|reflexivity].
    apply existsb_exists in Ex. destruct Ex as (n & Hn & E).
    apply String.eqb_eq in E. subst n. apply filter_In in Hn.
    destruct Hn as [_ Hn]. congruence.
Qed.

(** X19.  Round trip of a finished document.  For a schema whose field
    declarations are the fields of its sequence, with distinct names: a
    document that holds, in the order of the sequence, one instance with a
    non-empty text for some of the fields (at least one) and lacks only
    fields declared with minOccurs 0 is given back by the merge of its own
    pretty-printed text. *)
Theorem merge_of_finished_document
  (xsd_root : Element) (names : list string)
  (keep : string -> bool) (value : string -> string) :
  sequence_schema xsd_root names ->
  (forall n, In n names -> keep n = true -> value n <> EmptyString) ->
  (forall n, In n names -> keep n = false ->
             declared_minOccurs xsd_root n = Some "0") ->
  filter keep names <> [] ->
  get_metadata_template_with_values
    (fromstring_pretty_print (document_of keep value names)) xsd_root
  = Ok (document_of keep value names).
Proof.
  intros Hs Hvalue Hoptional Hsome.
  assert (Hb : build_metadata_template xsd_root
               = Ok (mkElement "metadata" [] None (map empty_field names))).
  { destruct Hs as (sequence & _ & _ & Hdecl & _).
    apply (build_loop_total _ (new_element "metadata" None) names Hdecl). }
  rewrite (merge_result _ xsd_root _ Hb). cbn [children].
  assert (Hitem : fromstring_pretty_print (document_of keep value names)
                  = mkElement "metadata" []
                      (text (fromstring_pretty_print
                               (document_of keep value names)))
                      (map (fun n => new_element n (Some (value n)))
                         (filter keep names))).
  { unfold fromstring_pretty_print, document_of.
    cbn [reparse text children tag attrib andb]. f_equal.
    rewrite map_map. apply map_ext_in. intros n Hn.
    apply filter_In in Hn. destruct Hn as [Hn K].
    apply reparse_leaf. apply Hvalue; assumption. }
  assert (Hmerge : forall l,
             incl l names ->
             flat_map (merge_elem
                         (fromstring_pretty_print (document_of keep value names))
                         xsd_root) (map empty_field l)
             = map (fun n => new_element n (Some (value n))) (filter keep l)).
  { induction l as [|n l IH]; intros Hl; [reflexivity|].
    assert (Hn : In n names) by (apply Hl; now left).
    cbn [map flat_map filter]. rewrite IH by (intros x Hx; apply Hl; now right).
    rewrite merge_elem_eq. cbn [empty_field new_element tag].
    rewrite Hitem, find_among_leaves, (existsb_filter_keep keep names n Hn).
    destruct (keep n) eqn:K.
    - assert (T : truthy (Some (value n)) = true).
      { pose proof (Hvalue n Hn K). destruct (value n); [congruence|].
        reflexivity. }
      rewrite T. reflexivity.
    - cbn [truthy]. unfold optional.
      change (tag (empty_field n)) with n.
      rewrite (Hoptional n Hn K). reflexivity. }
  rewrite (Hmerge names (incl_refl names)).
  unfold document_of.
  destruct (map (fun n => new_element n (Some (value n))) (filter keep names))
    as [|k kept] eqn:M.
  - apply map_eq_nil in M. contradiction.
  - reflexivity.
Qed.

Lemma merge_of_finished_document_witness :
  get_metadata_template_with_values
    (fromstring_pretty_print
       (Sample.metadata [Sample.field "Format" "Phone"])) Sample.schemaA
  = Ok (Sample.metadata [Sample.field "Format" "Phone"]).
Proof.
  apply (merge_of_finished_document Sample.schemaA ["Email"; "Format"]
           (String.eqb "Format") (fun _ => "Phone") sequence_schema_sample).
  - intros n _ _. discriminate.
  - intros n [<-|[<-|[]]] K; [reflexivity | discriminate].
  - discriminate.
Defined.

(** ** create_or_get_metadata *)

Lemma populate_step_plain xsd_root skip_optional doc xsd_elem name :
  takes_default xsd_root name = false ->
  texts name (populate_step xsd_root skip_optional doc xsd_elem)
  = texts name doc
  \/ texts name (populate_step xsd_root skip_optional doc xsd_elem)
     = Some EmptyString :: tl (texts name doc).
Proof.
  intros Hdef.
  destruct (String.eqb_spec (fstr (get xsd_elem "name")) name) as [E|E].
  - unfold populate_step.
    destruct (opt_eqb (get xsd_elem "name") (Some "metadata")); [now left|].
    rewrite E. unfold takes_default in Hdef. rewrite Hdef.
    destruct (find name doc) as [inst|] eqn:F; [|now left].
    destruct (opt_eqb (get xsd_elem "minOccurs") (Some "0") && skip_optional);
      [|now left].
    right. apply texts_set_text_of_first_same. eapply find_some_texts. exact F.
  - left.
    destruct (populate_step_cases xsd_root skip_optional doc xsd_elem)
      as [->|(t & ->)]; [reflexivity|].
    apply texts_set_text_of_first_other. congruence.
Qed.

Lemma populate_fold_plain xsd_root skip_optional name elems doc :
  takes_default xsd_root name = false ->
  texts name (fold_left (populate_step xsd_root skip_optional) elems doc)
  = texts name doc
  \/ texts name (fold_left (populate_step xsd_root skip_optional) elems doc)
     = Some EmptyString :: tl (texts name doc).
Proof.
  intros Hdef. revert doc.
  induction elems as [|e rest IH]; intros doc; [now left|].
  cbn [fold_left].
  destruct (IH (populate_step xsd_root skip_optional doc e)) as [H|H];
    destruct (populate_step_plain xsd_root skip_optional doc e name Hdef)
      as [S|S]; rewrite H, S; auto.
Qed.

Lemma texts_of_template names name :
  NoDup names -> In name names ->
  texts name (mkElement "metadata" [] None (map empty_field names))
  = [Some EmptyString].
Proof.
  intros Hnd Hin. unfold texts, findall, iterdescendants. cbn [children].
  induction Hnd as [|n names Hn Hnd IH]; [destruct Hin|].
  cbn [map flat_map iter empty_field new_element children app filter].
  rewrite has_tag_mk. destruct (String.eqb_spec n name) as [E|E].
  - subst n. cbn [map text]. f_equal.
    assert (Hnone : forall l, ~ In name l ->
               map text (filter (has_tag name)
                           (flat_map iter (map empty_field l))) = []).
    { induction l as [|m l IHl]; intros Hm; [reflexivity|].
      cbn [map flat_map iter empty_field new_element children app filter].
      rewrite has_tag_mk. destruct (String.eqb_spec m name) as [E|E].
      - exfalso. apply Hm. now left.
      - apply IHl. intros H. apply Hm. now right. }
    apply Hnone. exact Hn.
  - destruct Hin as [Hin|Hin]; [contradiction|]. apply IH. exact Hin.
Qed.

Lemma sequence_schema_not_metadata xsd_root names name :
  sequence_schema xsd_root names -> In name names -> name <> "metadata".
Proof.
  intros (sequence & _ & _ & Hdecl & _) Hin ->.
  assert (Hmem : In (Some "metadata") (declared_names (xsd_elements xsd_root)))
    by (rewrite Hdecl; apply in_map; exact Hin).
  unfold declared_names in Hmem. apply filter_In in Hmem.
  destruct Hmem as [_ Hmem]. discriminate.
Qed.

(** X20.  The document of a new entry.  When the API lists no metadata
    object and the field declarations of the schema are the fields of its
    sequence, with distinct names, create_or_get_metadata returns a
    document with one instance per field, in the order of the sequence; the
    text of a field that has restrictions and is not multi-valued is its
    first restriction value, the text of every other field is empty. *)
Theorem create_or_get_metadata_new_entry
  (xsd_root : Element) (names : list string) :
  sequence_schema xsd_root names ->
  exists doc,
    create_or_get_metadata [] xsd_root = Ok doc
    /\ map tag (children doc) = names
    /\ (forall name, In name names ->
                     texts name doc = [default_text xsd_root name]).
Proof.
  intros Hs.
  assert (Hnd : NoDup names) by (destruct Hs as (? & _ & _ & _ & H); exact H).
  assert (Hb : build_metadata_template xsd_root
               = Ok (mkElement "metadata" [] None (map empty_field names))).
  { destruct Hs as (sequence & _ & _ & Hdecl & _).
    apply (build_loop_total _ (new_element "metadata" None) names Hdecl). }
  eexists. split; [|split].
  - unfold create_or_get_metadata, check_metadata_exists. simpl.
    rewrite Hb. reflexivity.
  - unfold populate_default_values.
    assert (Htags : forall elems doc,
               map tag (children
                          (fold_left (populate_step xsd_root true) elems doc))
               = map tag (children doc)).
    { induction elems as [|e rest IH]; intros doc; [reflexivity|].
      cbn [fold_left]. rewrite IH.
      destruct (populate_step_cases xsd_root true doc e) as [->|(t & ->)];
        [reflexivity | apply tags_set_text_of_first]. }
    rewrite Htags. cbn [children]. rewrite map_map. apply map_id.
  - intros name Hin. unfold populate_default_values, default_text.
    pose proof (texts_of_template names name Hnd Hin) as Ht.
    destruct (takes_default xsd_root name) eqn:D.
    + rewrite (populate_fold_default xsd_root true name _ _ D
                 (sequence_schema_not_metadata xsd_root names name Hs Hin)).
      rewrite restricted_is_declared, Ht; [reflexivity|].
      unfold takes_default in D. apply andb_true_iff in D.
      destruct D as [D _]. intros E. rewrite E in D. discriminate.
    + destruct (populate_fold_plain xsd_root true name
                  (xsd_elements xsd_root)
                  (mkElement "metadata" [] None (map empty_field names)) D)
        as [H|H]; rewrite H, Ht; reflexivity.
Qed.

Lemma create_or_get_metadata_new_entry_witness :
  exists doc,
    create_or_get_metadata [] Sample.schemaA = Ok doc
    /\ texts "Format" doc = [Some "Go-Pro camera"]
    /\ texts "Email" doc = [Some EmptyString].
Proof.
  destruct (create_or_get_metadata_new_entry
              Sample.schemaA ["Email"; "Format"] sequence_schema_sample)
    as (doc & Hdoc & _ & Htexts).
  exists doc. split; [exact Hdoc|]. split.
  - apply (Htexts "Format"). right. left. reflexivity.
  - apply (Htexts "Email"). left. reflexivity.
Defined.

(** ** The updates of main *)

Lemma add_value_flat_step doc field_name value xsd_root :
  flat doc ->
  exists doc' r,
    add_value_to_metadata (Some doc) field_name value xsd_root = (Some doc', r)
    /\ flat doc'
    /\ (forall name, name <> field_name -> texts name doc' = texts name doc).
Proof.
  intros Hflat. unfold add_value_to_metadata.
  destruct (negb (Nat.eqb (length (get_restriction_values field_name xsd_root)) 0)
            && negb (existsb (opt_eqb (Some value))
                       (get_restriction_values field_name xsd_root))).
  { eexists _, _. split; [reflexivity|]. split; [exact Hflat | reflexivity]. }
  destruct (is_field_multi_valued field_name xsd_root).
  - destruct (negb (existsb (fun elem => opt_eqb (text elem) (Some value))
                      (findall field_name doc))).
    + destruct (find_insert_position doc field_name xsd_root) as [p|e].
      * rewrite flat_remove_empty_elements by (apply flat_insert; exact Hflat).
        eexists _, _. split; [reflexivity|]. split.
        -- apply flat_prune, flat_insert. exact Hflat.
        -- intros name Hname.
           rewrite texts_prune_other by (try apply flat_insert; assumption).
           apply texts_insert_other. exact Hname.
      * eexists _, _. split; [reflexivity|].
        split; [exact Hflat | reflexivity].
    + rewrite flat_remove_empty_elements by exact Hflat.
      eexists _, _. split; [reflexivity|]. split.
      * apply flat_prune. exact Hflat.
      * intros name Hname. apply texts_prune_other; assumption.
  - destruct (findall field_name doc).
    + destruct (find_insert_position doc field_name xsd_root) as [p|e].
      * eexists _, _. split; [reflexivity|]. split.
        -- apply flat_insert. exact Hflat.
        -- intros name Hname. apply texts_insert_other. exact Hname.
      * eexists _, _. split; [reflexivity|].
        split; [exact Hflat | reflexivity].
    + eexists _, _. split; [reflexivity|]. split.
      * apply flat_set_text_of_first. exact Hflat.
      * intros name Hname. apply texts_set_text_of_first_other. exact Hname.
Qed.

Lemma restriction_check_rejects doc field_name value xsd_root :
  get_restriction_values field_name xsd_root <> [] ->
  ~ In (Some value) (get_restriction_values field_name xsd_root) ->
  add_value_to_metadata (Some doc) field_name value xsd_root
  = (Some doc, Raise (ValueError ValueNotAllowed)).
Proof.
  intros Hne Hnot. unfold add_value_to_metadata.
  destruct (Nat.eqb (length (get_restriction_values field_name xsd_root)) 0)
    eqn:Hlen; [apply length_eqb_nil in Hlen; contradiction|].
  destruct (existsb (opt_eqb (Some value))
              (get_restriction_values field_name xsd_root)) eqn:Hex;
    [apply existsb_opt_eqb in Hex; contradiction | reflexivity].
Qed.

(** X21.  The five updates of main stand in one try block: an update that
    raises ends the block and the updates after it are not made.  On a flat
    document, when the schema does not allow the value that main sets for
    Format, the block ends with an exception and the instances of Format
    and of Categories are as they were before the block, although the two
    updates of Categories come after. *)
Theorem main_updates_stop_at_first_error (metadata_xml xsd_root : Element) :
  flat metadata_xml ->
  get_restriction_values "Format" xsd_root <> [] ->
  ~ In (Some "Go-Pro camera") (get_restriction_values "Format" xsd_root) ->
  exists doc e,
    main_updates metadata_xml xsd_root = (Some doc, Raise e)
    /\ texts "Categories" doc = texts "Categories" metadata_xml
    /\ texts "Format" doc = texts "Format" metadata_xml.
Proof.
  intros Hflat Hne Hnot. unfold main_updates.
  destruct (add_value_flat_step metadata_xml "Email" "someone@test.com"
              xsd_root Hflat) as (d1 & r1 & -> & Hflat1 & Hframe1).
  assert (C1 : texts "Categories" d1 = texts "Categories" metadata_xml)
    by (apply Hframe1; discriminate).
  assert (F1 : texts "Format" d1 = texts "Format" metadata_xml)
    by (apply Hframe1; discriminate).
  destruct r1 as [[]|e1]; cbn [then_add_value].
  2:{ exists d1, e1. auto. }
  destruct (add_value_flat_step d1 "Email" "someone@example.com"
              xsd_root Hflat1) as (d2 & r2 & -> & Hflat2 & Hframe2).
  assert (C2 : texts "Categories" d2 = texts "Categories" metadata_xml)
    by (rewrite <- C1; apply Hframe2; discriminate).
  assert (F2 : texts "Format" d2 = texts "Format" metadata_xml)
    by (rewrite <- F1; apply Hframe2; discriminate).
  destruct r2 as [[]|e2]; cbn [then_add_value].
  2:{ exists d2, e2. auto. }
  rewrite (restriction_check_rejects d2 "Format" "Go-Pro camera" xsd_root
             Hne Hnot).
  cbn [then_add_value]. exists d2, (ValueError ValueNotAllowed). auto.
Qed.

Lemma main_updates_stop_at_first_error_witness :
  exists doc e,
    main_updates
      (Sample.metadata [empty_field "Colour"; empty_field "Categories"])
      (Sample.schema_of
         [Sample.xs "element" [("name", "Format")]
            [Sample.restricted ["Phone"]];
          Sample.Categories])
    = (Some doc, Raise e)
    /\ texts "Categories" doc = [Some EmptyString].
Proof.
  destruct (main_updates_stop_at_first_error
              (Sample.metadata [empty_field "Colour"; empty_field "Categories"])
              (Sample.schema_of
                 [Sample.xs "element" [("name", "Format")]
                    [Sample.restricted ["Phone"]];
                  Sample.Categories]))
    as (doc & e & Hrun & Hcat & _).
  - repeat constructor.
  - vm_compute. discriminate.
  - vm_compute. intros [H|[]]. discriminate.
  - exists doc, e. split; [exact Hrun | exact Hcat].
Defined.

(** ** Inline types *)

(** X22.  The restrictions of a field whose declaration has an inline
    simpleType are the enumeration of the first restriction of that type
    (the first inline type, when there are several); the types beside the
    declaration are not looked at. *)
Theorem inline_type_gives_restrictions
  (xsd_root parent e type_elem : Element) (others : list Element)
  (name : string) :
  sole_declaration name xsd_root parent e ->
  findall_children (xsd "simpleType") e = type_elem :: others ->
  get_restriction_values name xsd_root = enumeration_values type_elem.
Proof.
  intros Hsole Hinline.
  pose proof (declarations_with_parent name xsd_root) as D.
  unfold sole_declaration in Hsole. rewrite Hsole in D. simpl in D.
  unfold get_restriction_values, own_simpleTypes.
  rewrite <- D. simpl. rewrite Hinline. reflexivity.
Qed.

Lemma inline_type_gives_restrictions_witness :
  get_restriction_values "Format" Sample.schemaA
  = [Some "Go-Pro camera"; Some "Phone"].
Proof.
  apply (inline_type_gives_restrictions
           Sample.schemaA
           (Sample.xs "sequence" [] [Sample.Email; Sample.Format])
           Sample.Format
           (Sample.restricted ["Go-Pro camera"; "Phone"]) []
           "Format" eq_refl eq_refl).
Defined.
